(** * Post-processing and compositing stage of the edge-inference demo (src/app.py)

    Shallow embedding of [get_mask] and [create_output_image] and of the
    [try]/[except] around it in [perform_inference].

    Modelling conventions:
    - probability maps hold floats; they are only compared with [0.5], which
      is exact in binary floating point, so they are modelled as [Q];
    - image samples are [Z]: the base image is [uint8], the mask of
      [get_mask] is [float64], and [image + mask] is a [float64] array whose
      samples are the exact sums (no wrap-around, no saturation);
    - a pixel has three channels in OpenCV's BGR order; channel 1, the
      middle plane of [np.dstack((empty, p, empty))], is green;
    - the OpenCV drawing primitives ([cv2.circle], [cv2.putText]) are library
      primitives: their effect on an image is recorded as a drawing command
      appended to the image's [marks];
    - Python objects the code mutates in place (the image buffer) live in a
      heap, so that aliasing between the caller's image and the returned
      image is visible. *)

From Stdlib Require Import ZArith QArith List String Bool Lia.
From Stdlib Require Import Rdefinitions Raxioms RIneq R_sqrt.
From stdpp Require Import base list strings pretty.

Local Open Scope Z_scope.

(** ** Python values *)

Inductive Exn :=
| IndexError      (* list or ndarray index out of range *)
| TypeError       (* decoded output of the wrong kind for the model *)
| ValueError      (* ndarray shapes that do not broadcast *)
| AttributeError  (* [cv2.imread] returned [None] *)
| CvError          (* [cv2.resize] refused the requested size *)
| ZeroDivisionError.

(** Python's index normalisation for a sequence of length [n]:
    [-n <= i < 0] counts from the end, anything else outside [0, n) raises. *)
Definition py_norm (n i : Z) : option nat :=
  if (0 <=? i) && (i <? n) then Some (Z.to_nat i)
  else if (- n <=? i) && (i <? 0) then Some (Z.to_nat (n + i))
  else None.

(** [l[i]] on a Python list or on the first axis of an ndarray. *)
Definition py_get {A} (l : list A) (i : Z) : option A :=
  match py_norm (Z.of_nat (length l)) i with
  | Some k => l !! k
  | None => None
  end.

(** [l[i] = x]: same indexing rule, raises out of range. *)
Definition py_set {A} (l : list A) (i : Z) (x : A) : option (list A) :=
  match py_norm (Z.of_nat (length l)) i with
  | Some k => Some (<[k := x]> l)
  | None => None
  end.

(** ** Images *)

(** One BGR pixel. *)
Record px3 := Px3 { ch0 : Z; ch1 : Z; ch2 : Z }.

(** One BGRA pixel of an overlay asset read with [cv2.imread(path, -1)]. *)
Record px4 := Px4 { a0 : Z; a1 : Z; a2 : Z; a3 : Z }.

Inductive Mark :=
| Circle (center : Z * Z) (radius : Z) (color : Z * Z * Z) (thickness : Z)
| Text (s : string) (org : Z * Z) (scale : Q) (color : Z * Z * Z) (thickness : Z).

(** An H x W x 3 image: rows of pixels, plus the drawing commands applied. *)
Record Img := MkImg { pixels : list (list px3); marks : list Mark }.

(** An overlay asset: rows of BGRA pixels. *)
Definition Asset := list (list px4).

(** ** Confidence thresholding *)

(** [x > 0.5] *)
Definition gt_half (x : Q) : bool := negb (Qle_bool x (1 # 2)).

(** [np.where(x > 0.5, 255, 0)] on one element. *)
Definition thr (x : Q) : Z := if gt_half x then 255 else 0.

(** [np.where(m > 0.5, 255, 0)] on a 2-D map. *)
Definition thr_map (m : list (list Q)) : list (list Z) := map (map thr) m.

(** Element-wise sum of two 2-D arrays of the same shape. *)
Definition add2 (a b : list (list Z)) : list (list Z) :=
  zip_with (zip_with Z.add) a b.

(** The POSE branch up to the mask, lines 66-71:
    [output = output[:-1]], threshold every remaining channel, then
    [np.sum(output, axis=0)].  Summing an empty stack gives zeros of the
    channel shape; the thresholded channels are stored in a float array,
    where 0, 255 and their sums are exact. *)
Definition pose_map (t : list (list (list Q))) : list (list Z) :=
  match map thr_map (removelast t) with
  | [] => map (map (fun _ => 0)) (List.last t [])
  | c :: cs => fold_left add2 cs c
  end.

(** The TEXT branch up to the mask, line 79: [np.where(output[1] > 0.5, 255, 0)]. *)
Definition text_map (t : list (list (list Q))) : option (list (list Z)) :=
  match py_get t 1 with
  | Some m => Some (thr_map m)
  | None => None
  end.

(** ** Mask construction and additive compositing *)

(** [get_mask]: [np.dstack((zeros, p, zeros))]. *)
Definition get_mask (p : list (list Z)) : list (list px3) :=
  map (map (fun v => Px3 0 v 0)) p.

Fixpoint mapM_opt {A B} (f : A -> option B) (l : list A) : option (list B) :=
  match l with
  | [] => Some []
  | x :: xs =>
      match f x, mapM_opt f xs with
      | Some y, Some ys => Some (y :: ys)
      | _, _ => None
      end
  end.

(** NumPy broadcasting along one axis: equal lengths pair up, a length-1
    side is repeated, anything else raises [ValueError]. *)
Definition bcast {A B C} (f : A -> B -> option C) (xs : list A) (ys : list B)
  : option (list C) :=
  if Nat.eqb (length xs) (length ys) then mapM_opt (fun p => f p.1 p.2) (zip xs ys)
  else match xs, ys with
       | [x], _ => mapM_opt (f x) ys
       | _, [y] => mapM_opt (fun x => f x y) xs
       | _, _ => None
       end.

Definition add_px (p q : px3) : px3 :=
  Px3 (ch0 p + ch0 q) (ch1 p + ch1 q) (ch2 p + ch2 q).

(** [image + mask] on H x W x 3 arrays (the channel axis has length 3 on both). *)
Definition add_pixels (a b : list (list px3)) : option (list (list px3)) :=
  bcast (bcast (fun p q => Some (add_px p q))) a b.

(** ** Heap, output and the effect monad *)

(** The Python heap: image objects addressed by a location. *)
Definition loc := nat.

Record St := MkSt { heap : list Img; stdout : list string }.

Inductive Res (A : Type) := Ok (a : A) | Raise (e : Exn).
Arguments Ok {A} a.
Arguments Raise {A} e.

(** A Python statement sequence: it may raise, and what it wrote to the
    heap before raising stays written. *)
Definition M (A : Type) := St -> Res A * St.

Definition ret {A} (a : A) : M A := fun s => (Ok a, s).
Definition raise {A} (e : Exn) : M A := fun s => (Raise e, s).
Definition bind {A B} (m : M A) (k : A -> M B) : M B :=
  fun s => match m s with
           | (Ok a, s') => k a s'
           | (Raise e, s') => (Raise e, s')
           end.

Notation "'let*' x := m 'in' k" := (bind m (fun x => k))
  (at level 200, x name, m at level 100, k at level 200).

(** Lift a fallible pure expression; [None] raises [e]. *)
Definition lift {A} (e : Exn) (o : option A) : M A :=
  match o with Some a => ret a | None => raise e end.

Definition print (msg : string) : M unit :=
  fun s => (Ok tt, MkSt (heap s) (stdout s ++ [msg])).

Definition load (l : loc) : M Img :=
  fun s => match heap s !! l with
           | Some i => (Ok i, s)
           | None => (Raise TypeError, s)
           end.

Definition store (l : loc) (i : Img) : M unit :=
  fun s => (Ok tt, MkSt (<[l := i]> (heap s)) (stdout s)).

(** A fresh ndarray object. *)
Definition alloc (i : Img) : M loc :=
  fun s => (Ok (length (heap s)), MkSt (heap s ++ [i]) (stdout s)).

(** [cv2.circle] / [cv2.putText] draw into the image object in place. The
    command is recorded whether or not it covers a pixel of the image, so
    two images can differ in their drawing commands while their pixels
    agree. *)
Definition draw (l : loc) (mk : Mark) : M unit :=
  let* i := load l in store l (MkImg (pixels i) (marks i ++ [mk])).

Fixpoint forM_ {A} (xs : list A) (f : A -> M unit) : M unit :=
  match xs with
  | [] => ret tt
  | x :: xs' => let* _ := f x in forM_ xs' f
  end.

(** The processed network output handed to [create_output_image]: a stack
    of 2-D probability maps (POSE, TEXT) or a flat integer vector
    (CAR_META, FACIAL, GLASS, GENDER). *)
Inductive Out :=
| OTensor (t : list (list (list Q)))
| OVec (v : list Z).

Definition as_tensor (o : Out) : M (list (list (list Q))) :=
  match o with OTensor t => ret t | OVec _ => raise TypeError end.
Definition as_vec (o : Out) : M (list Z) :=
  match o with OVec v => ret v | OTensor _ => raise TypeError end.

(** [output[i]] on the vector. *)
Definition at_ (v : list Z) (i : Z) : M Z := lift IndexError (py_get v i).

(** ** Category tables and the categorical decoders *)

Definition CAR_COLORS : list string :=
  ["white"; "gray"; "yellow"; "red"; "green"; "blue"; "black"]%string.
Definition CAR_TYPES : list string := ["car"; "bus"; "truck"; "van"]%string.
Definition GENDER_TYPES : list string := ["female"; "male"]%string.

(** Lines 87-88: [CAR_COLORS[output[0]]], [CAR_TYPES[output[1]]]. *)
Definition decode_car_meta (ci ti : Z) : option (string * string) :=
  match py_get CAR_COLORS ci, py_get CAR_TYPES ti with
  | Some c, Some t => Some (c, t)
  | _, _ => None
  end.

(** Lines 129-131: [age = output[0]], [GENDER_TYPES[output[1]]]. *)
Definition decode_gender (age gi : Z) : option (Z * string) :=
  match py_get GENDER_TYPES gi with
  | Some g => Some (age, g)
  | None => None
  end.

(** [image.shape[0]] *)
Definition height (i : Img) : Z := Z.of_nat (length (pixels i)).

(** ** The branches of [create_output_image] *)

(** POSE and TEXT: [image = image + mask] binds a new array. *)
Definition composite (l : loc) (p : list (list Z)) : M loc :=
  let* i := load l in
  let* px := lift ValueError (add_pixels (pixels i) (get_mask p)) in
  alloc (MkImg px (marks i)).

Definition pose_branch (l : loc) (o : Out) : M loc :=
  let* t := as_tensor o in composite l (pose_map t).

Definition text_branch (l : loc) (o : Out) : M loc :=
  let* t := as_tensor o in
  let* p := lift IndexError (text_map t) in
  composite l p.

(** Lines 85-96. *)
Definition car_meta_branch (l : loc) (o : Out) : M loc :=
  let* v := as_vec o in
  let* ci := at_ v 0 in
  let* color := lift IndexError (py_get CAR_COLORS ci) in
  let* ti := at_ v 1 in
  let* car_type := lift IndexError (py_get CAR_TYPES ti) in
  let* i := load l in
  let scaler := Z.max (height i / 1000) 1 in
  let* _ := draw l (Text ("Color: " +:+ color +:+ ", Type: " +:+ car_type)
                         (50 * scaler, 100 * scaler) (inject_Z (2 * scaler))
                         (0, 255, 0) (3 * scaler)) in
  ret l.

(** [range(0, n, 2)] *)
Definition range2 (n : nat) : list Z :=
  map (fun k => Z.of_nat (2 * k)) (seq 0 (Nat.div (n + 1) 2)).

(** One iteration of the FACIAL loop, lines 99-112. *)
Definition facial_step (l : loc) (v : list Z) (i : Z) : M unit :=
  let* x := at_ v i in
  let* y := at_ v (i + 1) in
  let* _ := draw l (Circle (x, y) 4 (255, 0, 0) (-1)) in
  let* x' := at_ v i in
  let* y' := at_ v (i + 1) in
  draw l (Text ("p" +:+ pretty (Z.quot i 2)) (x', y') (7 # 10) (255, 255, 255) 2).

(** Lines 97-113. *)
Definition facial_branch (l : loc) (o : Out) : M loc :=
  let* v := as_vec o in
  let* _ := forM_ (range2 (length v)) (facial_step l v) in
  ret l.

(** Lines 127-138. *)
Definition gender_branch (l : loc) (o : Out) : M loc :=
  let* v := as_vec o in
  let* age := at_ v 0 in
  let* gi := at_ v 1 in
  let* gender_type := lift IndexError (py_get GENDER_TYPES gi) in
  let* i := load l in
  let scaler := Z.max (height i / 5000) 1 in
  let* _ := draw l (Text (pretty age +:+ "," +:+ gender_type +:+ " ")
                         (20, height i - 10) (inject_Z (2 * scaler))
                         (0, 255, 0) (3 * scaler)) in
  ret l.

(** *** GLASS, lines 114-126 *)

(** The squared distance of line 117, [(output[36]-output[68])**2 +
    (output[37]-output[69])**2]; the landmarks are integers. *)
Definition scale_sq (v : list Z) : option Z :=
  match py_get v 36, py_get v 68, py_get v 37, py_get v 69 with
  | Some x36, Some x68, Some y36, Some y68 =>
      Some ((x36 - x68) ^ 2 + (y36 - y68) ^ 2)
  | _, _, _, _ => None
  end.

(** [scale = (...) ** (1/2.0)], in exact real arithmetic. *)
Definition glass_scale (v : list Z) : option R :=
  match scale_sq v with
  | Some n => Some (sqrt (IZR n))
  | None => None
  end.

(** [glasses.shape[0]], [glasses.shape[1]] *)
Definition asset_h (g : Asset) : Z := Z.of_nat (length g).
Definition asset_w (g : Asset) : Z :=
  match g with r :: _ => Z.of_nat (length r) | [] => 0 end.

Definition asset_px (g : Asset) (i j : nat) : px4 :=
  default (Px4 0 0 0 0) (g !! i ≫= fun r => r !! j).

(** [cv2.resize(glasses, (w, h))]: a library primitive, modelled by
    nearest-neighbour sampling; every OpenCV interpolation returns the asset
    itself when the size is unchanged. A non-positive size is refused. *)
Definition cv2_resize (g : Asset) (w h : Z) : M Asset :=
  if (w <=? 0) || (h <=? 0) then raise CvError
  else ret (map (fun r => map (fun c =>
              asset_px g (Z.to_nat (Z.of_nat r * asset_h g / h))
                         (Z.to_nat (Z.of_nat c * asset_w g / w)))
              (seq 0 (Z.to_nat w))) (seq 0 (Z.to_nat h))).

(** [image[r, c] = v] on an H x W x 3 ndarray: NumPy indexing on both axes. *)
Definition np_set2 (px : list (list px3)) (r c : Z) (v : px3) : option (list (list px3)) :=
  match py_norm (Z.of_nat (length px)) r with
  | Some k =>
      match px !! k with
      | Some row =>
          match py_set row c v with
          | Some row' => Some (<[k := row']> px)
          | None => None
          end
      | None => None
      end
  | None => None
  end.

Definition write_px (l : loc) (r c : Z) (v : px3) : M unit :=
  let* im := load l in
  let* px := lift IndexError (np_set2 (pixels im) r c v) in
  store l (MkImg px (marks im)).

(** Lines 122-125: the alpha-keyed copy of the resized asset. *)
Definition overlay_loop (l : loc) (g : Asset) (tv th : Z) : M unit :=
  forM_ (seq 0 (length g)) (fun i =>
    forM_ (seq 0 (Z.to_nat (asset_w g))) (fun j =>
      let p := asset_px g i j in
      if negb (a3 p =? 0)
      then write_px l (Z.of_nat i + tv) (Z.of_nat j + th) (Px3 (a0 p) (a1 p) (a2 p))
      else ret tt)).

(** [cv2.imread(glass, -1)]. [fs] is the file system as [cv2.imread]
    sees it: the decoded BGRA asset, or [None] when the file cannot be read;
    with no path ([glass] is [None]) [cv2.imread] returns [None] as well. *)
Definition imread (fs : string -> option Asset) (glass : option string) : option Asset :=
  match glass with Some path => fs path | None => None end.

Definition glass_branch (fs : string -> option Asset) (l : loc) (glass : option string)
    (o : Out) : M loc :=
  let* v := as_vec o in
  let* im := load l in
  let* _ := alloc im in                                  (* image_copy = np.copy(image) *)
  let glasses := imread fs glass in                      (* cv2.imread(glass, -1) *)
  let* n := lift IndexError (scale_sq v) in
  let w := Z.sqrt n in                                   (* int(scale) *)
  let* g0 := lift AttributeError glasses in              (* glasses.shape *)
  let* _ := if asset_w g0 =? 0 then raise ZeroDivisionError else ret tt in
  let h := Z.sqrt (n * asset_h g0 * asset_h g0) / asset_w g0 in
                                                         (* int(scale*shape[0]/shape[1]) *)
  let* g := cv2_resize g0 w h in
  let* o1 := at_ v 1 in
  let* o5 := at_ v 5 in
  let tv := Z.quot (o1 + o5 - asset_w g) 2 in
  let* o0 := at_ v 0 in
  let* o4 := at_ v 4 in
  let th := Z.quot (o0 + o4 - asset_h g) 2 in
  let* _ := overlay_loop l g tv th in
  ret l.

(** ** The dispatcher and its caller *)

(** [create_output_image(model_type, image, glass, output)]. *)
Definition create_output_image (fs : string -> option Asset) (model_type : string)
    (l : loc) (glass : option string) (o : Out) : M loc :=
  if String.eqb model_type "POSE" then pose_branch l o
  else if String.eqb model_type "TEXT" then text_branch l o
  else if String.eqb model_type "CAR_META" then car_meta_branch l o
  else if String.eqb model_type "FACIAL" then facial_branch l o
  else if String.eqb model_type "GLASS" then glass_branch fs l glass o
  else if String.eqb model_type "GENDER" then gender_branch l o
  else let* _ := print "Unknown model type, unable to create output image." in
       ret l.

(** Lines 172-177 of [perform_inference]: any exception falls back to the
    object bound to [image]. *)
Definition render_step (fs : string -> option Asset) (t : string) (l : loc)
    (glass : option string) (o : Out) : M loc :=
  fun s => match create_output_image fs t l glass o s with
           | (Ok l', s') => (Ok l', snd (print "Success" s'))
           | (Raise _, s') => (Ok l, snd (print "Error" s'))
           end.

(** ** Vocabulary of the statements *)

(** [m[i][j]] on a 2-D array, [None] out of range. *)
Definition at2 {A} (m : list (list A)) (i j : nat) : option A :=
  m !! i ≫= fun r => r !! j.

(** [m[i][j]] of a probability map, where it is known to exist. *)
Definition elem (m : list (list Q)) (i j : nat) : Q := default 0%Q (at2 m i j).

Definition zsum (l : list Z) : Z := fold_right Z.add 0 l.

(** An H x W array. *)
Definition shape2 {A} (H W : nat) (m : list (list A)) : Prop :=
  length m = H /\ Forall (fun r => length r = W) m.

(** The tags [create_output_image] has a branch for. *)
Definition known_tags : list string :=
  ["POSE"; "TEXT"; "CAR_META"; "FACIAL"; "GLASS"; "GENDER"]%string.

(** The state after the unknown-type branch: the warning printed, the heap
    as it was. *)
Definition fallback_state (s : St) : St :=
  MkSt (heap s) (stdout s ++ ["Unknown model type, unable to create output image."%string]).

(** The state after drawing [ms] onto image object [l] of [s]. *)
Definition with_marks (s : St) (l : loc) (im : Img) (ms : list Mark) : St :=
  MkSt (<[l := MkImg (pixels im) (marks im ++ ms)]> (heap s)) (stdout s).

(** What the landmark renderer is meant to draw for a flat list of 2N
    coordinates: for the k-th pair (x, y), a filled circle of radius 4 at
    (x, y) and the label "p" followed by k anchored at (x, y). *)
Definition landmark_marks (v : list Z) : list Mark :=
  flat_map (fun k =>
    let x := nth (2 * k) v 0 in
    let y := nth (2 * k + 1) v 0 in
    [Circle (x, y) 4 (255, 0, 0) (-1);
     Text ("p" +:+ pretty (Z.of_nat k)) (x, y) (7 # 10) (255, 255, 255) 2])
    (seq 0 (Nat.div (length v) 2)).

(** Euclidean distance between two integer points, in the reals. *)
Definition euclid (p q : Z * Z) : R :=
  sqrt ((IZR p.1 - IZR q.1) * (IZR p.1 - IZR q.1)
        + (IZR p.2 - IZR q.2) * (IZR p.2 - IZR q.2))%R.

(** [m] with the element at row [i], column [j] replaced by [v]. *)
Definition update2 {A} (m : list (list A)) (i j : nat) (v : A) : list (list A) :=
  match m !! i with
  | Some row => <[i := <[j := v]> row]> m
  | None => m
  end.

(** A 2 x 2 BGRA asset, transparent at row 0, column 1. *)
Definition asset22 : Asset :=
  [[Px4 9 9 9 1; Px4 8 8 8 0]; [Px4 7 7 7 1; Px4 6 6 6 1]].

(** Landmarks putting that asset at scale 2, centred on (0, 0): point 68 is
    (2, 0), all other coordinates are 0. *)
Definition corner_landmarks : list Z :=
  map (fun k => if Z.eqb k 68 then 2 else 0) (seqZ 0 70).

(** Landmarks putting that asset at scale 2 with its placement at
    (0, 1): point 0 is (4, 2), point 68 is (2, 0), all other coordinates
    are 0. *)
Definition edge_landmarks : list Z :=
  map (fun k => if Z.eqb k 68 then 2 else if Z.eqb k 0 then 4
                else if Z.eqb k 1 then 2 else 0) (seqZ 0 70).

(** Landmarks putting that asset at scale 2 with its placement at
    (0, 0), wholly inside a 2 x 2 image: point 0 is (2, 2), point 68 is
    (2, 0), all other coordinates are 0. *)
Definition centre_landmarks : list Z :=
  map (fun k => if Z.eqb k 68 then 2 else if Z.eqb k 0 then 2
                else if Z.eqb k 1 then 2 else 0) (seqZ 0 70).

(** A 2 x 2 base image. *)
Definition img22 : Img := MkImg [[Px3 1 2 3; Px3 4 5 6]; [Px3 7 8 9; Px3 0 0 0]] [].

(** [m] preserves the state property [Q], whatever its outcome. *)
Definition keeps {A} (Q : St -> Prop) (m : M A) : Prop :=
  forall s, Q s -> Q (snd (m s)).

(** Every value [m] returns satisfies [P]. *)
Definition returns {A} (P : A -> Prop) (m : M A) : Prop :=
  forall s r s', m s = (Ok r, s') -> P r.

(** * Properties *)

Lemma lookup_map_list {A B} (f : A -> B) (l : list A) (i : nat) :
  map f l !! i = f <$> l !! i.
Proof. revert i; induction l as [|x l IH]; intros [|i]; simpl; auto. Qed.

Lemma at2_map {A B} (f : A -> B) (m : list (list A)) i j :
  at2 (map (map f) m) i j = f <$> at2 m i j.
Proof.
  unfold at2. rewrite lookup_map_list.
  destruct (m !! i) as [r|]; simpl; [|reflexivity].
  apply lookup_map_list.
Qed.

Lemma at2_add2 (a b : list (list Z)) i j x y :
  at2 a i j = Some x -> at2 b i j = Some y -> at2 (add2 a b) i j = Some (x + y).
Proof.
  unfold at2, add2. rewrite lookup_zip_with.
  destruct (a !! i) as [ra|], (b !! i) as [rb|]; simpl; try discriminate.
  intros Ha Hb. rewrite lookup_zip_with, Ha, Hb. reflexivity.
Qed.

Lemma shape2_at2 {A} H W (m : list (list A)) i j :
  shape2 H W m -> (i < H)%nat -> (j < W)%nat -> exists x, at2 m i j = Some x.
Proof.
  intros [Hl Hr] Hi Hj. unfold at2.
  destruct (lookup_lt_is_Some_2 m i) as [r Hr']; [lia|].
  rewrite Hr'; simpl.
  pose proof (Forall_lookup_1 _ _ _ _ Hr Hr') as Hlen; simpl in Hlen.
  destruct (lookup_lt_is_Some_2 r j) as [x Hx]; [lia|]. eauto.
Qed.

Lemma fold_add2_at2 (cs : list (list (list Z))) (acc : list (list Z)) i j s :
  at2 acc i j = Some s ->
  Forall (fun c => is_Some (at2 c i j)) cs ->
  at2 (fold_left add2 cs acc) i j
  = Some (s + zsum (map (fun c => default 0 (at2 c i j)) cs)).
Proof.
  revert acc s. induction cs as [|c cs IH]; intros acc s Hacc Hcs; simpl.
  - rewrite Hacc. f_equal. lia.
  - inversion Hcs as [|? ? [x Hx] Hcs']; subst.
    rewrite (IH (add2 acc c) (s + x)); [| apply at2_add2; auto | auto].
    rewrite Hx. simpl. f_equal. lia.
Qed.

Lemma thr_spec (x : Q) :
  (((1 # 2) < x)%Q -> thr x = 255) /\ ((x <= 1 # 2)%Q -> thr x = 0).
Proof.
  unfold thr, gt_half. split; intros Hx.
  - destruct (Qle_bool x (1 # 2)) eqn:E; [|reflexivity].
    apply Qle_bool_iff in E. exfalso. apply (Qlt_not_le _ _ Hx E).
  - apply Qle_bool_iff in Hx. rewrite Hx. reflexivity.
Qed.

Lemma py_get_nonneg {A} (l : list A) (i : Z) :
  0 <= i -> py_get l i = l !! Z.to_nat i.
Proof.
  intros Hi. unfold py_get, py_norm.
  destruct (Z.leb_spec 0 i); [|lia].
  destruct (Z.ltb_spec i (Z.of_nat (length l))) as [Hlt|Hge]; simpl.
  - reflexivity.
  - destruct (Z.ltb_spec i 0); [lia|]. rewrite andb_false_r.
    symmetry. apply lookup_ge_None_2. lia.
Qed.

Lemma py_get_neg {A} (l : list A) (i : Z) :
  i < 0 -> - Z.of_nat (length l) <= i ->
  py_get l i = l !! Z.to_nat (Z.of_nat (length l) + i).
Proof.
  intros Hi Hn. unfold py_get, py_norm.
  destruct (Z.leb_spec 0 i); [lia|]; simpl.
  destruct (Z.leb_spec (- Z.of_nat (length l)) i); [|lia].
  destruct (Z.ltb_spec i 0); [|lia]. reflexivity.
Qed.

Lemma zeros_at2 {A} H W (m : list (list A)) i j :
  shape2 H W m -> (i < H)%nat -> (j < W)%nat ->
  at2 (map (map (fun _ => 0)) m) i j = Some 0.
Proof.
  intros Hs Hi Hj. rewrite at2_map.
  destruct (shape2_at2 H W m i j Hs Hi Hj) as [x Hx]. rewrite Hx. reflexivity.
Qed.

(** C1. The thresholding stage: an element becomes 255 exactly when it is
    strictly above 0.5 and 0 otherwise (0.5 itself gives 0); the POSE map at
    (i, j) is the sum over all channels but the last of the thresholded
    values; the TEXT map is the thresholded channel 1. *)
Theorem threshold_stage (t : list (list (list Q))) (H W i j : nat) :
  t <> [] -> Forall (shape2 H W) t -> (i < H)%nat -> (j < W)%nat ->
  (forall x : Q, (thr x = 255 <-> (1 # 2 < x)%Q) /\ (thr x = 0 <-> ~ (1 # 2 < x)%Q)) /\
  thr (1 # 2) = 0 /\
  at2 (pose_map t) i j = Some (zsum (map (fun m => thr (elem m i j)) (removelast t))) /\
  text_map t = thr_map <$> t !! 1%nat /\
  (forall m, at2 (thr_map m) i j = thr <$> at2 m i j).
Proof.
  intros Hne Hsh Hi Hj. split; [|split; [|split; [|split]]].
  - intros x. destruct (thr_spec x) as [Hgt Hle]. split; split.
    + intros E. destruct (Qlt_le_dec (1 # 2) x) as [|L]; [assumption|].
      rewrite (Hle L) in E. discriminate.
    + exact Hgt.
    + intros E L. rewrite (Hgt L) in E. discriminate.
    + intros N. apply Hle. apply Qnot_lt_le. exact N.
  - reflexivity.
  - pose proof (app_removelast_last [] Hne) as Ht.
    assert (Hall : Forall (shape2 H W) (removelast t ++ [List.last t []]))
      by (rewrite <- Ht; exact Hsh).
    apply Forall_app in Hall as [Hrl Hlast].
    unfold pose_map.
    destruct (removelast t) as [|c cs] eqn:Erl; simpl.
    + apply Forall_cons_1 in Hlast as [Hl _]. apply (zeros_at2 H W); assumption.
    + inversion Hrl as [|? ? Hc Hcs]; subst.
      destruct (shape2_at2 H W c i j Hc Hi Hj) as [x Hx].
      rewrite (fold_add2_at2 _ _ i j (thr x)).
      * f_equal. rewrite map_map. unfold elem.
        rewrite Hx. simpl. f_equal. f_equal. apply map_ext_in.
        intros m Hm. unfold thr_map. rewrite at2_map.
        pose proof (proj1 (List.Forall_forall _ _) Hcs m Hm) as Hsm.
        destruct (shape2_at2 H W m i j Hsm Hi Hj) as [y Hy]. rewrite Hy. reflexivity.
      * unfold thr_map. rewrite at2_map, Hx. reflexivity.
      * apply List.Forall_forall. intros c' Hc'.
        apply in_map_iff in Hc' as [m [<- Hm]].
        pose proof (proj1 (List.Forall_forall _ _) Hcs m Hm) as Hsm.
        unfold thr_map. rewrite at2_map.
        destruct (shape2_at2 H W m i j Hsm Hi Hj) as [y Hy]. rewrite Hy. eexists; reflexivity.
  - unfold text_map. rewrite py_get_nonneg by lia.
    change (Z.to_nat 1) with 1%nat. destruct (t !! 1%nat); reflexivity.
  - intros m. apply at2_map.
Qed.

Lemma threshold_stage_witness :
  let t := [[[1 # 1; 0 # 1]]; [[1 # 2; 3 # 4]]; [[0 # 1; 0 # 1]]] in
  t <> [] /\ Forall (shape2 1 2) t /\
  at2 (pose_map t) 0 1 = Some (zsum (map (fun m => thr (elem m 0 1)) (removelast t))).
Proof.
  intros t.
  assert (Hsh : Forall (shape2 1 2) t)
    by (repeat constructor).
  split; [discriminate | split; [exact Hsh |]].
  apply (threshold_stage t 1 2 0 1); [discriminate | exact Hsh | lia | lia].
Defined.

Lemma create_output_image_unknown fs tag l glass o s :
  Forall (fun k => String.eqb tag k = false) known_tags ->
  create_output_image fs tag l glass o s = (Ok l, fallback_state s).
Proof.
  intros Hk. unfold known_tags in Hk.
  repeat match goal with
         | H : Forall _ (_ :: _) |- _ => apply Forall_cons_1 in H as [? H]
         end.
  unfold create_output_image.
  repeat match goal with H : String.eqb _ _ = false |- _ => rewrite H; clear H end.
  reflexivity.
Qed.

Lemma not_known_eqb (tag : string) :
  ~ In tag known_tags -> Forall (fun k => String.eqb tag k = false) known_tags.
Proof.
  intros Hn. apply List.Forall_forall. intros k Hk.
  apply String.eqb_neq. intros ->. exact (Hn Hk).
Qed.

(** C3. Any tag other than the six known ones takes the unknown-type branch:
    the warning is printed, no exception is raised, and the very same image
    object is returned with the heap untouched, so the returned image equals
    the input pixel for pixel. *)
Theorem unknown_tag_passthrough fs tag l glass o s :
  ~ In tag known_tags ->
  create_output_image fs tag l glass o s = (Ok l, fallback_state s) /\
  heap (fallback_state s) = heap s /\
  stdout (fallback_state s)
  = stdout s ++ ["Unknown model type, unable to create output image."%string].
Proof.
  intros Hn. split; [|split; reflexivity].
  apply create_output_image_unknown, not_known_eqb, Hn.
Qed.

Lemma unknown_tag_passthrough_witness :
  ~ In "DEPTH"%string known_tags /\
  create_output_image (fun _ => None) "DEPTH" 0%nat None (OVec [])
    (MkSt [MkImg [[Px3 1 2 3]] []] [])
  = (Ok 0%nat, fallback_state (MkSt [MkImg [[Px3 1 2 3]] []] [])).
Proof.
  split; [simpl; intuition discriminate|].
  apply (unknown_tag_passthrough (fun _ => None) "DEPTH" 0%nat None (OVec [])).
  simpl. intuition discriminate.
Defined.

(** C10. Dispatch is exact, case-sensitive string equality: each of the six
    tags selects its own branch, and every other string, for instance
    ["pose"] or [" POSE"], takes the unknown-type fallback. *)
Theorem dispatch_exact_string fs l glass o s :
  create_output_image fs "POSE" l glass o s = pose_branch l o s /\
  create_output_image fs "TEXT" l glass o s = text_branch l o s /\
  create_output_image fs "CAR_META" l glass o s = car_meta_branch l o s /\
  create_output_image fs "FACIAL" l glass o s = facial_branch l o s /\
  create_output_image fs "GLASS" l glass o s = glass_branch fs l glass o s /\
  create_output_image fs "GENDER" l glass o s = gender_branch l o s /\
  (forall tag, Forall (fun k => String.eqb tag k = false) known_tags ->
     create_output_image fs tag l glass o s = (Ok l, fallback_state s)) /\
  create_output_image fs "pose" l glass o s = (Ok l, fallback_state s) /\
  create_output_image fs " POSE" l glass o s = (Ok l, fallback_state s) /\
  create_output_image fs "POSE " l glass o s = (Ok l, fallback_state s).
Proof.
  repeat split.
  - intros tag Hk. apply create_output_image_unknown. exact Hk.
Qed.

Lemma py_get_in_range {A} (l : list A) (d : A) (i : Z) :
  - Z.of_nat (length l) <= i < Z.of_nat (length l) ->
  py_get l i = Some (nth (Z.to_nat (i mod Z.of_nat (length l))) l d).
Proof.
  intros Hi. set (n := Z.of_nat (length l)) in *.
  assert (Hk : (Z.to_nat (i mod n) < length l)%nat).
  { pose proof (Z.mod_pos_bound i n ltac:(lia)). lia. }
  destruct (nth_lookup_or_length l (Z.to_nat (i mod n)) d) as [E|]; [|lia].
  rewrite <- E.
  destruct (Z.leb_spec 0 i).
  - rewrite py_get_nonneg by lia. rewrite Z.mod_small by lia. reflexivity.
  - rewrite py_get_neg by (fold n; lia). fold n. f_equal. f_equal.
    apply (Z.mod_unique i n (-1)); lia.
Qed.

Lemma py_get_out_of_range {A} (l : list A) (i : Z) :
  i < - Z.of_nat (length l) \/ Z.of_nat (length l) <= i -> py_get l i = None.
Proof.
  intros Hi. unfold py_get, py_norm.
  destruct (Z.leb_spec 0 i), (Z.ltb_spec i (Z.of_nat (length l))),
           (Z.leb_spec (- Z.of_nat (length l)) i), (Z.ltb_spec i 0);
    simpl; try reflexivity; lia.
Qed.

(** C4, counterexample. A negative category index does not fail: Python
    list indexing counts it from the end of the table. *)
Lemma decoders_negative_index_wraps :
  decode_car_meta (-1) 0 = Some ("black", "car")%string /\
  decode_car_meta 0 (-4) = Some ("white", "car")%string /\
  decode_gender 25 (-1) = Some (25, "male"%string) /\
  ~ (forall ci ti, ci < 0 -> decode_car_meta ci ti = None).
Proof.
  split; [reflexivity | split; [reflexivity | split; [reflexivity |]]].
  intros H. specialize (H (-1) 0 ltac:(lia)). discriminate H.
Qed.

(** C4, as amended. The decoders are Python list lookups: an index [i]
    with [-n <= i < n] (n the table length: 7, 4 and 2) returns the entry at
    [i mod n], i.e. [table[i]] for [0 <= i < n] and [table[n + i]] for a
    negative [i]; an index [>= n] or [< -n] fails. *)
Theorem decoders_python_indexing (ci ti age gi : Z) :
  (-7 <= ci < 7 -> -4 <= ti < 4 ->
     decode_car_meta ci ti
     = Some (nth (Z.to_nat (ci mod 7)) CAR_COLORS ""%string,
             nth (Z.to_nat (ti mod 4)) CAR_TYPES ""%string)) /\
  (ci < -7 \/ 7 <= ci \/ ti < -4 \/ 4 <= ti -> decode_car_meta ci ti = None) /\
  (-2 <= gi < 2 ->
     decode_gender age gi = Some (age, nth (Z.to_nat (gi mod 2)) GENDER_TYPES ""%string)) /\
  (gi < -2 \/ 2 <= gi -> decode_gender age gi = None) /\
  decode_car_meta 0 0 = Some ("white", "car")%string /\
  decode_car_meta 6 3 = Some ("black", "van")%string /\
  decode_car_meta 7 0 = None /\
  decode_gender 25 1 = Some (25, "male"%string).
Proof.
  unfold decode_car_meta, decode_gender.
  split; [|split; [|split; [|split]]].
  - intros Hc Ht.
    rewrite (py_get_in_range CAR_COLORS ""%string ci) by (simpl; lia).
    rewrite (py_get_in_range CAR_TYPES ""%string ti) by (simpl; lia).
    reflexivity.
  - intros [Hc|[Hc|[Ht|Ht]]].
    + rewrite (py_get_out_of_range CAR_COLORS ci) by (simpl; lia). reflexivity.
    + rewrite (py_get_out_of_range CAR_COLORS ci) by (simpl; lia). reflexivity.
    + rewrite (py_get_out_of_range CAR_TYPES ti) by (simpl; lia).
      destruct (py_get CAR_COLORS ci); reflexivity.
    + rewrite (py_get_out_of_range CAR_TYPES ti) by (simpl; lia).
      destruct (py_get CAR_COLORS ci); reflexivity.
  - intros Hg. rewrite (py_get_in_range GENDER_TYPES ""%string gi) by (simpl; lia).
    reflexivity.
  - intros Hg. rewrite (py_get_out_of_range GENDER_TYPES gi) by (simpl; lia).
    reflexivity.
  - repeat split.
Qed.

(** ** The FACIAL loop *)

Lemma forM_app {A} (xs ys : list A) (f : A -> M unit) s :
  forM_ (xs ++ ys) f s
  = match forM_ xs f s with
    | (Ok _, s') => forM_ ys f s'
    | (Raise e, s') => (Raise e, s')
    end.
Proof.
  revert s. induction xs as [|x xs IH]; intros s; simpl.
  - reflexivity.
  - unfold bind. destruct (f x s) as [[[]|e] s1]; [apply IH | reflexivity].
Qed.

Lemma with_marks_nil s l im :
  heap s !! l = Some im -> with_marks s l im [] = s.
Proof.
  intros Hl. destruct s as [h out], im as [px mk]. unfold with_marks; simpl in *.
  rewrite app_nil_r. f_equal. apply list_insert_id. exact Hl.
Qed.

Lemma draw_with_marks s l im ms mk :
  heap s !! l = Some im ->
  draw l mk (with_marks s l im ms) = (Ok tt, with_marks s l im (ms ++ [mk])).
Proof.
  intros Hl. unfold draw, bind, load, with_marks. cbn [heap stdout].
  assert (Hlt : (l < length (heap s))%nat) by (apply lookup_lt_is_Some_1; eauto).
  rewrite list_lookup_insert_eq by exact Hlt.
  unfold store. cbn [heap stdout pixels marks].
  rewrite list_insert_insert_eq, app_assoc. reflexivity.
Qed.

Lemma at_in_range (v : list Z) (i : nat) :
  (i < length v)%nat -> at_ v (Z.of_nat i) = ret (nth i v 0).
Proof.
  intros Hi. unfold at_. rewrite py_get_nonneg by lia. rewrite Nat2Z.id.
  destruct (nth_lookup_or_length v i 0) as [E|]; [|lia]. rewrite E. reflexivity.
Qed.

Lemma at_out_of_range (v : list Z) (i : Z) :
  Z.of_nat (length v) <= i -> at_ v i = raise IndexError.
Proof.
  intros Hi. unfold at_. rewrite py_get_out_of_range by lia. reflexivity.
Qed.

Lemma quot_double (k : nat) : Z.quot (Z.of_nat (2 * k)) 2 = Z.of_nat k.
Proof. rewrite Nat2Z.inj_mul, Z.mul_comm. apply Z.quot_mul. lia. Qed.

Lemma facial_step_ok v l s im ms (k : nat) :
  heap s !! l = Some im -> (2 * k + 1 < length v)%nat ->
  facial_step l v (Z.of_nat (2 * k)) (with_marks s l im ms)
  = (Ok tt, with_marks s l im (ms ++
      [Circle (nth (2 * k) v 0, nth (2 * k + 1) v 0) 4 (255, 0, 0) (-1);
       Text ("p" +:+ pretty (Z.of_nat k)) (nth (2 * k) v 0, nth (2 * k + 1) v 0)
            (7 # 10) (255, 255, 255) 2])).
Proof.
  intros Hl Hk. unfold facial_step.
  replace (Z.of_nat (2 * k) + 1) with (Z.of_nat (2 * k + 1)) by lia.
  rewrite !at_in_range by lia. rewrite quot_double.
  unfold bind at 1 2; unfold ret at 1 2.
  unfold bind at 1. rewrite draw_with_marks by exact Hl.
  unfold bind, ret. rewrite draw_with_marks by exact Hl.
  rewrite <- app_assoc. reflexivity.
Qed.

Lemma facial_loop_ok v l s im (n a : nat) ms :
  heap s !! l = Some im -> (2 * (a + n) <= length v)%nat ->
  forM_ (map (fun k => Z.of_nat (2 * k)) (seq a n)) (facial_step l v) (with_marks s l im ms)
  = (Ok tt, with_marks s l im (ms ++ flat_map (fun k =>
      [Circle (nth (2 * k) v 0, nth (2 * k + 1) v 0) 4 (255, 0, 0) (-1);
       Text ("p" +:+ pretty (Z.of_nat k)) (nth (2 * k) v 0, nth (2 * k + 1) v 0)
            (7 # 10) (255, 255, 255) 2]) (seq a n))).
Proof.
  intros Hl. revert a ms. induction n as [|n IH]; intros a ms Hn;
    cbn [seq map forM_ flat_map].
  - rewrite app_nil_r. reflexivity.
  - unfold bind at 1. rewrite facial_step_ok by (exact Hl || lia).
    rewrite IH by lia. rewrite <- app_assoc. reflexivity.
Qed.

Lemma facial_loop_from v l s im (n : nat) :
  heap s !! l = Some im -> (2 * n <= length v)%nat ->
  forM_ (map (fun k => Z.of_nat (2 * k)) (seq 0 n)) (facial_step l v) s
  = (Ok tt, with_marks s l im (flat_map (fun k =>
      [Circle (nth (2 * k) v 0, nth (2 * k + 1) v 0) 4 (255, 0, 0) (-1);
       Text ("p" +:+ pretty (Z.of_nat k)) (nth (2 * k) v 0, nth (2 * k + 1) v 0)
            (7 # 10) (255, 255, 255) 2]) (seq 0 n))).
Proof.
  intros Hl Hn. rewrite <- (with_marks_nil s l im Hl) at 1.
  rewrite (facial_loop_ok v l s im n 0 [] Hl) by lia. reflexivity.
Qed.

Lemma facial_step_odd_last v l st (N : nat) :
  length v = (2 * N + 1)%nat ->
  facial_step l v (Z.of_nat (2 * N)) st = (Raise IndexError, st).
Proof.
  intros Hv. unfold facial_step.
  rewrite at_in_range by lia.
  rewrite (at_out_of_range v (Z.of_nat (2 * N) + 1)) by lia.
  reflexivity.
Qed.

(** C5. On a landmark list of even length 2N the FACIAL branch draws into
    the image exactly the 2N commands of [landmark_marks]: N filled circles
    of radius 4, the k-th at the k-th coordinate pair, each followed by the
    label "p" followed by k at the same point; on a list of odd length it
    raises. *)
Theorem facial_landmarks (v : list Z) (l : loc) (s : St) (im : Img) :
  heap s !! l = Some im ->
  (Nat.Even (length v) ->
     facial_branch l (OVec v) s = (Ok l, with_marks s l im (landmark_marks v))) /\
  (Nat.Odd (length v) ->
     exists s', facial_branch l (OVec v) s = (Raise IndexError, s')).
Proof.
  intros Hl. split.
  - intros [N HN]. unfold facial_branch, as_vec, bind, ret.
    unfold range2. rewrite HN.
    replace ((2 * N + 1) / 2)%nat with N
      by (apply (Nat.div_unique _ _ _ 1); lia).
    rewrite (facial_loop_from v l s im N Hl) by lia.
    unfold landmark_marks. rewrite HN.
    replace (2 * N / 2)%nat with N
      by (apply (Nat.div_unique _ _ _ 0); lia).
    reflexivity.
  - intros [N HN]. unfold facial_branch, as_vec, bind, ret.
    unfold range2. rewrite HN.
    replace ((2 * N + 1 + 1) / 2)%nat with (N + 1)%nat
      by (apply (Nat.div_unique _ _ _ 0); lia).
    rewrite seq_app, map_app, forM_app.
    rewrite (facial_loop_from v l s im N Hl) by lia.
    cbn [seq map forM_]. unfold bind at 1.
    rewrite (facial_step_odd_last v l _ N HN).
    eexists. reflexivity.
Qed.

Lemma facial_landmarks_witness :
  let s := MkSt [MkImg [[Px3 0 0 0]] []] [] in
  facial_branch 0%nat (OVec [10; 10; 20; 20]) s
  = (Ok 0%nat, with_marks s 0%nat (MkImg [[Px3 0 0 0]] []) (landmark_marks [10; 10; 20; 20])) /\
  landmark_marks [10; 10; 20; 20]
  = [Circle (10, 10) 4 (255, 0, 0) (-1); Text "p0" (10, 10) (7 # 10) (255, 255, 255) 2;
     Circle (20, 20) 4 (255, 0, 0) (-1); Text "p1" (20, 20) (7 # 10) (255, 255, 255) 2] /\
  exists s', facial_branch 0%nat (OVec [10; 10; 20]) s = (Raise IndexError, s').
Proof.
  intros s. split; [|split].
  - apply (facial_landmarks [10; 10; 20; 20] 0%nat s (MkImg [[Px3 0 0 0]] []));
      [reflexivity | exists 2%nat; reflexivity].
  - reflexivity.
  - apply (facial_landmarks [10; 10; 20] 0%nat s (MkImg [[Px3 0 0 0]] []));
      [reflexivity | exists 1%nat; reflexivity].
Defined.

(** ** The overlay scale *)

Lemma sqrt_IZR_square (r : Z) : 0 <= r -> sqrt (IZR (r * r)) = IZR r.
Proof.
  intros Hr. rewrite mult_IZR. apply sqrt_square. apply IZR_le. exact Hr.
Qed.

(** [int(scale)], computed in the GLASS branch as [Z.sqrt n], is the
    integer part of the real square root. *)
Lemma int_scale_floor (n : Z) :
  0 <= n -> (IZR (Z.sqrt n) <= sqrt (IZR n) < IZR (Z.sqrt n) + 1)%R.
Proof.
  intros Hn. destruct (Z.sqrt_spec n Hn) as [Hlo Hhi].
  pose proof (Z.sqrt_nonneg n) as Hr.
  split.
  - rewrite <- (sqrt_IZR_square (Z.sqrt n)) by exact Hr.
    apply sqrt_le_1_alt. apply IZR_le. exact Hlo.
  - rewrite <- plus_IZR.
    rewrite <- (sqrt_IZR_square (Z.sqrt n + 1)) by lia.
    apply sqrt_lt_1_alt. split; [apply IZR_le; exact Hn|]. apply IZR_lt. lia.
Qed.

Lemma py_get_nth (v : list Z) (k : nat) :
  (k < length v)%nat -> py_get v (Z.of_nat k) = Some (nth k v 0).
Proof.
  intros Hk. rewrite py_get_nonneg, Nat2Z.id by lia.
  destruct (nth_lookup_or_length v k 0) as [E|]; [exact E|lia].
Qed.

(** C6. The overlay scale is the Euclidean distance between the points
    (output[36], output[37]) and (output[68], output[69]); for the points
    (0, 0) and (3, 4) it is exactly 5. The branch resizes the asset to the
    integer part of this scale. *)
Theorem overlay_scale (v : list Z) :
  (70 <= length v)%nat ->
  glass_scale v = Some (euclid (nth 36 v 0, nth 37 v 0) (nth 68 v 0, nth 69 v 0)) /\
  (nth 36 v 0 = 0 -> nth 37 v 0 = 0 -> nth 68 v 0 = 3 -> nth 69 v 0 = 4 ->
     glass_scale v = Some 5%R) /\
  (forall n, scale_sq v = Some n ->
     (IZR (Z.sqrt n) <= sqrt (IZR n) < IZR (Z.sqrt n) + 1)%R).
Proof.
  intros Hlen.
  assert (Hsq : scale_sq v
                = Some ((nth 36 v 0 - nth 68 v 0) ^ 2 + (nth 37 v 0 - nth 69 v 0) ^ 2)).
  { unfold scale_sq.
    change 36 with (Z.of_nat 36); change 37 with (Z.of_nat 37);
    change 68 with (Z.of_nat 68); change 69 with (Z.of_nat 69).
    rewrite !py_get_nth by lia. reflexivity. }
  split; [|split].
  - unfold glass_scale, euclid. rewrite Hsq. simpl. f_equal. f_equal.
    rewrite plus_IZR, !Z.pow_2_r, !mult_IZR, !minus_IZR. reflexivity.
  - intros H36 H37 H68 H69. unfold glass_scale. rewrite Hsq, H36, H37, H68, H69.
    change ((0 - 3) ^ 2 + (0 - 4) ^ 2) with (5 * 5).
    rewrite sqrt_IZR_square by lia. reflexivity.
  - intros n Hn. rewrite Hsq in Hn. injection Hn as <-.
    apply int_scale_floor. nia.
Qed.

Lemma overlay_scale_witness :
  let v := map (fun k => if Z.eqb k 68 then 3 else if Z.eqb k 69 then 4 else 0)
               (seqZ 0 70) in
  (70 <= length v)%nat /\ glass_scale v = Some 5%R.
Proof.
  intros v. split; [vm_compute; lia|].
  apply (overlay_scale v); [vm_compute; lia | reflexivity ..].
Defined.

(** ** Mask compositing *)

Lemma Forall2_of_length {A B} (P : A -> B -> Prop) (l : list A) (k : list B) :
  (forall x y, P x y) -> length l = length k -> Forall2 P l k.
Proof.
  intros HP. revert k. induction l as [|x l IH]; intros [|y k] Hlen;
    simpl in Hlen; try discriminate; constructor; auto.
Qed.

Lemma bcast_same_length {A B C} (f : A -> B -> option C) (g : A -> B -> C) xs ys :
  Forall2 (fun a b => f a b = Some (g a b)) xs ys ->
  bcast f xs ys = Some (zip_with g xs ys).
Proof.
  intros HF. unfold bcast. rewrite (Forall2_length _ _ _ HF), Nat.eqb_refl.
  induction HF as [|x y xs ys Hxy HF IH]; simpl; [reflexivity|].
  rewrite Hxy, IH. reflexivity.
Qed.

Lemma shape2_rows {A B} (P : list A -> list B -> Prop) H W
      (a : list (list A)) (b : list (list B)) :
  shape2 H W a -> shape2 H W b ->
  (forall r s, length r = W -> length s = W -> P r s) -> Forall2 P a b.
Proof.
  intros [Ha Fa] [Hb Fb] HP. revert b H Ha Hb Fb.
  induction a as [|r a IH]; intros [|s b] H Ha Hb Fb; simpl in *;
    try (subst; discriminate); [constructor|].
  inversion Fa as [|? ? Hr Fa']; inversion Fb as [|? ? Hs Fb']; subst.
  constructor; [auto|]. apply (IH Fa' b (length a)); auto; lia.
Qed.

Lemma shape2_map {A B} (f : A -> B) H W (m : list (list A)) :
  shape2 H W m -> shape2 H W (map (map f) m).
Proof.
  intros [Hl Hr]. split; [rewrite length_map; exact Hl|].
  apply Forall_map. eapply Forall_impl; [exact Hr|]. intros r Hr'. simpl.
  rewrite length_map. exact Hr'.
Qed.

Lemma add_pixels_same_shape (px : list (list px3)) (m : list (list px3)) H W :
  shape2 H W px -> shape2 H W m ->
  add_pixels px m = Some (zip_with (zip_with add_px) px m).
Proof.
  intros Hp Hm. unfold add_pixels. apply bcast_same_length.
  apply (shape2_rows _ H W px m Hp Hm). intros r s Hr Hs.
  apply bcast_same_length. apply Forall2_of_length; [reflexivity | congruence].
Qed.

Lemma shape2_zip_with {A B C} (f : A -> B -> C) H W a b :
  shape2 H W a -> shape2 H W b -> shape2 H W (zip_with (zip_with f) a b).
Proof.
  intros Ha Hb. pose proof (shape2_rows (fun r s => length r = length s) H W a b Ha Hb
    ltac:(intros; congruence)) as HF.
  destruct Ha as [Ha Fa]. split.
  - rewrite length_zip_with_l_eq; [exact Ha | exact (Forall2_length _ _ _ HF)].
  - apply List.Forall_forall. intros z Hz.
    apply list_elem_of_In, list_elem_of_lookup in Hz as [i Hi].
    apply lookup_zip_with_Some in Hi as (r & s & -> & Hr & Hs).
    rewrite length_zip_with_l_eq.
    + exact (Forall_lookup_1 _ _ _ _ Fa Hr).
    + exact (Forall2_lookup_lr _ _ _ _ _ _ HF Hr Hs).
Qed.

(** C2, counterexample. Compositing does not keep samples in 0..255: a
    green sample of 200 under a detected text pixel becomes 455 in the
    returned image. *)
Lemma composite_green_exceeds_255 :
  create_output_image (fun _ => None) "TEXT" 0%nat None
    (OTensor [[[0 # 1]]; [[1 # 1]]]) (MkSt [MkImg [[Px3 0 200 0]] []] [])
  = (Ok 1%nat, MkSt [MkImg [[Px3 0 200 0]] []; MkImg [[Px3 0 455 0]] []] []) /\
  ~ (0 <= 455 <= 255).
Proof. split; [reflexivity | lia]. Qed.

(** C2, as amended. For an H x W image and an H x W thresholded map,
    [image + get_mask(map)] adds the map value to the green sample and
    leaves blue and red as they are, without clamping: where the map is 255
    the green sample becomes the input's plus 255 (above 255 whenever the
    input green is positive), where it is 0 the pixel is the input's. *)
Theorem composite_adds_to_green (px : list (list px3)) (p : list (list Z)) (H W : nat) :
  shape2 H W px -> shape2 H W p ->
  exists out, add_pixels px (get_mask p) = Some out /\ shape2 H W out /\
  forall i j q v, at2 px i j = Some q -> at2 p i j = Some v ->
    at2 out i j = Some (Px3 (ch0 q) (ch1 q + v) (ch2 q)) /\
    (v = 255 -> at2 out i j = Some (Px3 (ch0 q) (ch1 q + 255) (ch2 q))) /\
    (v = 0 -> at2 out i j = Some q).
Proof.
  intros Hpx Hp.
  assert (Hm : shape2 H W (get_mask p)) by (apply shape2_map; exact Hp).
  exists (zip_with (zip_with add_px) px (get_mask p)).
  split; [apply (add_pixels_same_shape _ _ H W Hpx Hm)|].
  split; [apply shape2_zip_with; assumption|].
  intros i j q v Hq Hv.
  assert (E : at2 (zip_with (zip_with add_px) px (get_mask p)) i j
              = Some (Px3 (ch0 q) (ch1 q + v) (ch2 q))).
  { assert (Hmv : at2 (get_mask p) i j = Some (Px3 0 v 0))
      by (unfold get_mask; rewrite at2_map, Hv; reflexivity).
    unfold at2 in *. rewrite lookup_zip_with.
    destruct (px !! i) as [r|]; [|discriminate].
    destruct (get_mask p !! i) as [s|]; [|discriminate]. simpl in *.
    rewrite lookup_zip_with, Hq, Hmv. simpl. unfold add_px. simpl.
    f_equal. f_equal; lia. }
  split; [exact E|]. split.
  - intros ->. exact E.
  - intros ->. rewrite E. rewrite Z.add_0_r. destruct q; reflexivity.
Qed.

Lemma composite_adds_to_green_witness :
  shape2 1 2 [[Px3 1 200 3; Px3 4 5 6]] /\ shape2 1 2 [[255; 0]] /\
  add_pixels [[Px3 1 200 3; Px3 4 5 6]] (get_mask [[255; 0]])
  = Some [[Px3 1 455 3; Px3 4 5 6]].
Proof.
  assert (H1 : shape2 1 2 [[Px3 1 200 3; Px3 4 5 6]]) by (repeat constructor).
  assert (H2 : shape2 1 2 [[255; 0]]) by (repeat constructor).
  split; [exact H1 | split; [exact H2 |]].
  destruct (composite_adds_to_green _ _ 1 2 H1 H2) as (out & Hout & _ & _).
  rewrite Hout. vm_compute in Hout. injection Hout as <-. reflexivity.
Defined.

(** ** The GLASS overlay *)

(** C7, counterexample. With the 2 x 2 asset centred on the top-left
    corner of a 2 x 2 image the placement is (-1, -1), outside the image;
    the branch raises nothing and NumPy's negative indexing wraps the
    writes around: asset pixel (0, 0) lands on image pixel (1, 1), (1, 0) on
    (0, 1), (1, 1) on (0, 0). *)
Lemma glass_overlay_wraps_around :
  create_output_image (fun _ => Some asset22) "GLASS" 0%nat (Some "glasses.png"%string)
    (OVec corner_landmarks)
    (MkSt [MkImg [[Px3 1 2 3; Px3 4 5 6]; [Px3 7 8 9; Px3 0 0 0]] []] [])
  = (Ok 0%nat,
     MkSt [MkImg [[Px3 6 6 6; Px3 7 7 7]; [Px3 7 8 9; Px3 9 9 9]] [];
           MkImg [[Px3 1 2 3; Px3 4 5 6]; [Px3 7 8 9; Px3 0 0 0]] []] []).
Proof. vm_compute. reflexivity. Qed.

Lemma py_norm_in_range (n i : Z) :
  - n <= i < n -> py_norm n i = Some (Z.to_nat (i mod n)).
Proof.
  intros Hi. unfold py_norm.
  destruct (Z.leb_spec 0 i), (Z.ltb_spec i n); simpl; try lia.
  - rewrite Z.mod_small by lia. reflexivity.
  - destruct (Z.leb_spec (- n) i), (Z.ltb_spec i 0); simpl; try lia.
    f_equal. f_equal. apply (Z.mod_unique i n (-1)); lia.
Qed.

Lemma py_norm_out_of_range (n i : Z) : i < - n \/ n <= i -> py_norm n i = None.
Proof.
  intros Hi. unfold py_norm.
  destruct (Z.leb_spec 0 i), (Z.ltb_spec i n), (Z.leb_spec (- n) i), (Z.ltb_spec i 0);
    simpl; try reflexivity; lia.
Qed.

(** C7, as amended. There is no bounds check on the overlay writes: the
    write [image[r, c] = ...] of line 125 on an H x W image uses NumPy
    indexing on each axis, so a target with [-H <= r < H] and [-W <= c < W]
    is written at [(r mod H, c mod W)] (a negative target wraps to the
    opposite edge and succeeds), and any other target raises [IndexError]
    with the state as it was before that write. *)
Theorem glass_write_python_indexing (l : loc) (s : St) (im : Img) (H W : nat)
    (r c : Z) (v : px3) :
  heap s !! l = Some im -> shape2 H W (pixels im) ->
  ((- Z.of_nat H <= r < Z.of_nat H /\ - Z.of_nat W <= c < Z.of_nat W) ->
     write_px l r c v s
     = (Ok tt, MkSt (<[l := MkImg (update2 (pixels im) (Z.to_nat (r mod Z.of_nat H))
                                            (Z.to_nat (c mod Z.of_nat W)) v)
                                  (marks im)]> (heap s)) (stdout s))) /\
  ((r < - Z.of_nat H \/ Z.of_nat H <= r \/ c < - Z.of_nat W \/ Z.of_nat W <= c) ->
     write_px l r c v s = (Raise IndexError, s)).
Proof.
  intros Hl [HH HW].
  unfold write_px, bind, load. rewrite Hl.
  unfold np_set2. rewrite HH. split.
  - intros [Hr Hc]. rewrite py_norm_in_range by exact Hr.
    assert (Hk : (Z.to_nat (r mod Z.of_nat H) < length (pixels im))%nat).
    { rewrite HH. pose proof (Z.mod_pos_bound r (Z.of_nat H) ltac:(lia)). lia. }
    destruct (lookup_lt_is_Some_2 _ _ Hk) as [row Hrow].
    rewrite Hrow.
    pose proof (Forall_lookup_1 _ _ _ _ HW Hrow) as Hw; simpl in Hw.
    unfold py_set. rewrite Hw, py_norm_in_range by exact Hc.
    unfold lift, ret, store, update2. rewrite Hrow. reflexivity.
  - intros Hout.
    destruct (decide (r < - Z.of_nat H \/ Z.of_nat H <= r)) as [Hr|Hr].
    + rewrite py_norm_out_of_range by exact Hr. reflexivity.
    + rewrite py_norm_in_range by lia.
      assert (Hk : (Z.to_nat (r mod Z.of_nat H) < length (pixels im))%nat).
      { rewrite HH. pose proof (Z.mod_pos_bound r (Z.of_nat H) ltac:(lia)). lia. }
      destruct (lookup_lt_is_Some_2 _ _ Hk) as [row Hrow].
      rewrite Hrow.
      pose proof (Forall_lookup_1 _ _ _ _ HW Hrow) as Hw; simpl in Hw.
      unfold py_set. rewrite Hw, py_norm_out_of_range by lia. reflexivity.
Qed.

Lemma glass_write_python_indexing_witness :
  let s := MkSt [MkImg [[Px3 1 2 3; Px3 4 5 6]; [Px3 7 8 9; Px3 0 0 0]] []] [] in
  write_px 0%nat (-1) (-1) (Px3 9 9 9) s
  = (Ok tt, MkSt [MkImg [[Px3 1 2 3; Px3 4 5 6]; [Px3 7 8 9; Px3 9 9 9]] []] []) /\
  write_px 0%nat 2 0 (Px3 9 9 9) s = (Raise IndexError, s).
Proof.
  intros s.
  assert (Hs : shape2 2 2 [[Px3 1 2 3; Px3 4 5 6]; [Px3 7 8 9; Px3 0 0 0]])
    by (repeat constructor).
  destruct (glass_write_python_indexing 0%nat s
              (MkImg [[Px3 1 2 3; Px3 4 5 6]; [Px3 7 8 9; Px3 0 0 0]] []) 2 2
              (-1) (-1) (Px3 9 9 9) eq_refl Hs) as [Hin _].
  destruct (glass_write_python_indexing 0%nat s
              (MkImg [[Px3 1 2 3; Px3 4 5 6]; [Px3 7 8 9; Px3 0 0 0]] []) 2 2
              2 0 (Px3 9 9 9) eq_refl Hs) as [_ Hout].
  split.
  - rewrite Hin by lia. reflexivity.
  - apply Hout. lia.
Defined.

(** ** Failures and the caller's fallback *)

(** C8, counterexample. A GLASS call whose placement runs past the right
    edge writes two asset pixels into the caller's image and then raises
    [IndexError]; [perform_inference] swallows the exception and goes on
    with the partially overwritten image. *)
Lemma failing_render_corrupts_and_is_swallowed :
  let s := MkSt [img22] [] in
  let s' := MkSt [MkImg [[Px3 1 2 3; Px3 9 9 9]; [Px3 7 8 9; Px3 7 7 7]] []; img22] [] in
  create_output_image (fun _ => Some asset22) "GLASS" 0%nat (Some "glasses.png"%string)
    (OVec edge_landmarks) s = (Raise IndexError, s') /\
  heap s' !! 0%nat <> heap s !! 0%nat /\
  render_step (fun _ => Some asset22) "GLASS" 0%nat (Some "glasses.png"%string)
    (OVec edge_landmarks) s = (Ok 0%nat, MkSt (heap s') ["Error"%string]).
Proof.
  split; [vm_compute; reflexivity | split; [discriminate | vm_compute; reflexivity]].
Qed.

(** C8, as amended. [create_output_image] either returns an image or
    raises; a call that raises keeps whatever it already drew or wrote into
    the caller's image (the FACIAL markers before an odd tail, the GLASS
    pixels before an out-of-range write). The caller catches every exception,
    prints "Error" and continues with the object bound to [image]: no
    failure reaches the caller of [perform_inference]. *)
Theorem render_failures_swallowed fs t l glass o s :
  (exists l' s', render_step fs t l glass o s = (Ok l', s')) /\
  (forall e s', create_output_image fs t l glass o s = (Raise e, s') ->
     render_step fs t l glass o s
     = (Ok l, MkSt (heap s') (stdout s' ++ ["Error"%string]))) /\
  (forall l' s', create_output_image fs t l glass o s = (Ok l', s') ->
     render_step fs t l glass o s
     = (Ok l', MkSt (heap s') (stdout s' ++ ["Success"%string]))) /\
  facial_branch 0%nat (OVec [10; 10; 20]) (MkSt [img22] [])
  = (Raise IndexError,
     MkSt [MkImg (pixels img22) [Circle (10, 10) 4 (255, 0, 0) (-1);
                                 Text "p0" (10, 10) (7 # 10) (255, 255, 255) 2]] []) /\
  create_output_image (fun _ => Some asset22) "GLASS" 0%nat (Some "glasses.png"%string)
    (OVec edge_landmarks) (MkSt [img22] [])
  = (Raise IndexError,
     MkSt [MkImg [[Px3 1 2 3; Px3 9 9 9]; [Px3 7 8 9; Px3 7 7 7]] []; img22] []).
Proof.
  unfold render_step.
  split; [|split; [|split; [|split]]].
  - destruct (create_output_image fs t l glass o s) as [[l'|e] s']; eauto.
  - intros e s' E. rewrite E. reflexivity.
  - intros l' s' E. rewrite E. reflexivity.
  - vm_compute. reflexivity.
  - vm_compute. reflexivity.
Qed.

(** ** Effects on the caller's image *)

Lemma keeps_bind {A B} Q (m : M A) (k : A -> M B) :
  keeps Q m -> (forall a, keeps Q (k a)) -> keeps Q (bind m k).
Proof.
  intros Hm Hk s Hs. unfold bind.
  specialize (Hm s Hs). destruct (m s) as [[a|e] s']; simpl in *.
  - apply (Hk a). exact Hm.
  - exact Hm.
Qed.

Lemma keeps_ret {A} Q (a : A) : keeps Q (ret a).
Proof. intros s Hs. exact Hs. Qed.

Lemma keeps_raise {A} Q e : keeps Q (@raise A e).
Proof. intros s Hs. exact Hs. Qed.

Lemma keeps_lift {A} Q e (o : option A) : keeps Q (lift e o).
Proof. destruct o; [apply keeps_ret | apply keeps_raise]. Qed.

Lemma keeps_load Q l : keeps Q (load l).
Proof. intros s Hs. unfold load. destruct (heap s !! l); exact Hs. Qed.

Lemma keeps_alloc l im i : keeps (fun st => heap st !! l = Some im) (alloc i).
Proof.
  intros s Hs. simpl. apply lookup_app_l_Some. exact Hs.
Qed.

Lemma keeps_as_tensor {A} Q o (k : _ -> M A) :
  (forall t, keeps Q (k t)) -> keeps Q (bind (as_tensor o) k).
Proof.
  intros Hk. apply keeps_bind; [|exact Hk].
  destruct o; [apply keeps_ret | apply keeps_raise].
Qed.

Lemma keeps_composite l im l0 p :
  keeps (fun st => heap st !! l = Some im) (composite l0 p).
Proof.
  unfold composite. apply keeps_bind; [apply keeps_load|]. intros i.
  apply keeps_bind; [apply keeps_lift|]. intros px. apply keeps_alloc.
Qed.

Lemma returns_bind {A B} P (m : M A) (k : A -> M B) :
  (forall a, returns P (k a)) -> returns P (bind m k).
Proof.
  intros Hk s r s'. unfold bind.
  destruct (m s) as [[a|e] s1]; [apply Hk | discriminate].
Qed.

Lemma returns_ret {A} (P : A -> Prop) a : P a -> returns P (ret a).
Proof. intros Ha s r s' E. injection E as <- _. exact Ha. Qed.

Ltac returns_chain :=
  repeat (apply returns_bind; intros ?); apply returns_ret; reflexivity.

(** C9, counterexample. The GLASS branch assigns pixels of the caller's
    image in place: with the 2 x 2 asset placed at (0, 0), wholly inside
    the 2 x 2 image, the call succeeds and the caller's image object (at
    location 0) then holds three asset pixels instead of its original
    ones; only the unused [image_copy] keeps them. *)
Lemma glass_mutates_caller_pixels :
  let s := MkSt [img22] [] in
  create_output_image (fun _ => Some asset22) "GLASS" 0%nat (Some "glasses.png"%string)
    (OVec centre_landmarks) s
  = (Ok 0%nat, MkSt [MkImg [[Px3 9 9 9; Px3 4 5 6]; [Px3 7 7 7; Px3 6 6 6]] []; img22] []) /\
  [[Px3 9 9 9; Px3 4 5 6]; [Px3 7 7 7; Px3 6 6 6]] <> pixels img22.
Proof. split; [vm_compute; reflexivity | discriminate]. Qed.

Lemma drawing_branches_return_l fs l glass o :
  returns (eq l) (car_meta_branch l o) /\ returns (eq l) (facial_branch l o) /\
  returns (eq l) (glass_branch fs l glass o) /\ returns (eq l) (gender_branch l o).
Proof.
  unfold car_meta_branch, facial_branch, glass_branch, gender_branch.
  repeat split; returns_chain.
Qed.

Lemma keeps_forM {A} Q (xs : list A) (f : A -> M unit) :
  (forall x, keeps Q (f x)) -> keeps Q (forM_ xs f).
Proof.
  intros Hf. induction xs as [|x xs IH]; simpl; [apply keeps_ret|].
  apply keeps_bind; [apply Hf | intros _; exact IH].
Qed.

(** The states reached from [s] by drawing into object [l] only. *)
Definition drawn_from (s : St) (l : loc) (im : Img) (st : St) : Prop :=
  exists ms, st = with_marks s l im ms.

Lemma keeps_draw s l im mk :
  heap s !! l = Some im -> keeps (drawn_from s l im) (draw l mk).
Proof.
  intros Hl st [ms ->]. rewrite (draw_with_marks s l im ms mk Hl). exists (ms ++ [mk]). reflexivity.
Qed.

Ltac drawing_chain Hl :=
  repeat match goal with
  | |- keeps _ (bind _ _) => apply keeps_bind; [|intros ?]
  | |- keeps _ (as_vec ?o) => destruct o; [apply keeps_raise | apply keeps_ret]
  | |- keeps _ (lift _ _) => apply keeps_lift
  | |- keeps _ (at_ _ _) => apply keeps_lift
  | |- keeps _ (ret _) => apply keeps_ret
  | |- keeps _ (load _) => apply keeps_load
  | |- keeps _ (draw _ _) => apply (keeps_draw _ _ _ _ Hl)
  | |- keeps _ (forM_ _ _) => apply keeps_forM; intros ?
  | |- keeps _ (facial_step _ _ _) => unfold facial_step
  | |- keeps _ (let _ := _ in _) => cbv zeta
  end.

(** C9, as amended. POSE and TEXT build a new array and the unknown-type
    branch returns the image as it is: on these tags the caller's image
    object holds its original contents after the call, whatever its outcome.
    CAR_META, FACIAL and GENDER draw into the caller's image object in
    place: whatever the outcome, that object then holds its contents at the
    call (pixels and earlier drawing) followed by the new drawing commands,
    and nothing else changes, so a second call on it draws on top of the
    first call's drawing. These three and GLASS, which assigns pixels of the
    caller's image object in place, return that same object when they
    succeed. *)
Theorem render_buffer_effects fs l glass o s im :
  heap s !! l = Some im ->
  (forall t, t = "POSE"%string \/ t = "TEXT"%string \/ ~ In t known_tags ->
     heap (snd (create_output_image fs t l glass o s)) !! l = Some im) /\
  (forall t, In t ["CAR_META"; "FACIAL"; "GENDER"]%string ->
     exists ms, snd (create_output_image fs t l glass o s) = with_marks s l im ms) /\
  (forall t, In t ["CAR_META"; "FACIAL"; "GLASS"; "GENDER"]%string ->
     forall l' s', create_output_image fs t l glass o s = (Ok l', s') -> l' = l).
Proof.
  intros Hl. split; [|split].
  - intros t [->|[->|Hu]].
    + change (create_output_image fs "POSE" l glass o s) with (pose_branch l o s).
      unfold pose_branch.
      apply keeps_as_tensor; [|exact Hl]. intros t. apply keeps_composite.
    + change (create_output_image fs "TEXT" l glass o s) with (text_branch l o s).
      unfold text_branch.
      apply keeps_as_tensor; [|exact Hl]. intros t.
      apply keeps_bind; [apply keeps_lift|]. intros p. apply keeps_composite.
    + rewrite (create_output_image_unknown fs t l glass o s (not_known_eqb t Hu)).
      exact Hl.
  - intros t Ht.
    assert (H0 : drawn_from s l im s) by (exists []; symmetry; apply with_marks_nil, Hl).
    simpl in Ht. destruct Ht as [<-|[<-|[<-|[]]]].
    + change (create_output_image fs "CAR_META" l glass o s) with (car_meta_branch l o s).
      assert (K : keeps (drawn_from s l im) (car_meta_branch l o))
        by (unfold car_meta_branch; drawing_chain Hl).
      exact (K s H0).
    + change (create_output_image fs "FACIAL" l glass o s) with (facial_branch l o s).
      assert (K : keeps (drawn_from s l im) (facial_branch l o))
        by (unfold facial_branch; drawing_chain Hl).
      exact (K s H0).
    + change (create_output_image fs "GENDER" l glass o s) with (gender_branch l o s).
      assert (K : keeps (drawn_from s l im) (gender_branch l o))
        by (unfold gender_branch; drawing_chain Hl).
      exact (K s H0).
  - intros t Ht l' s' E. symmetry.
    destruct (drawing_branches_return_l fs l glass o) as (Hc & Hf & Hg & Hd).
    simpl in Ht. destruct Ht as [<-|[<-|[<-|[<-|[]]]]].
    + exact (Hc s l' s' E).
    + exact (Hf s l' s' E).
    + exact (Hg s l' s' E).
    + exact (Hd s l' s' E).
Qed.

Lemma render_buffer_effects_witness :
  heap (snd (create_output_image (fun _ => None) "POSE" 0%nat None
              (OTensor [[[1 # 1]]; [[0 # 1]]]) (MkSt [img22] []))) !! 0%nat = Some img22 /\
  exists ms, snd (create_output_image (fun _ => None) "FACIAL" 0%nat None
                    (OVec [0; 0]) (MkSt [img22] []))
             = with_marks (MkSt [img22] []) 0%nat img22 ms.
Proof.
  destruct (render_buffer_effects (fun _ => None) 0%nat None
              (OTensor [[[1 # 1]]; [[0 # 1]]]) (MkSt [img22] []) img22 eq_refl) as [H1 _].
  destruct (render_buffer_effects (fun _ => None) 0%nat None
              (OVec [0; 0]) (MkSt [img22] []) img22 eq_refl) as [_ [H2 _]].
  split; [apply H1; left; reflexivity | apply H2; simpl; tauto].
Defined.

(** * Further properties of [create_output_image] and its caller *)

Lemma draw_from s l im mk :
  heap s !! l = Some im -> draw l mk s = (Ok tt, with_marks s l im [mk]).
Proof.
  intros Hl. rewrite <- (with_marks_nil s l im Hl) at 1.
  rewrite (draw_with_marks s l im [] mk Hl). reflexivity.
Qed.

Lemma bind_ret_l {A B} (a : A) (k : A -> M B) : bind (ret a) k = k a.
Proof. reflexivity. Qed.

Lemma bind_raise_l {A B} e (k : A -> M B) : bind (raise e) k = raise e.
Proof. reflexivity. Qed.

Lemma at_0 x y r : at_ (x :: y :: r) 0 = ret x.
Proof. unfold at_. rewrite py_get_nonneg by lia. reflexivity. Qed.

Lemma at_1 x y r : at_ (x :: y :: r) 1 = ret y.
Proof. unfold at_. rewrite py_get_nonneg by lia. reflexivity. Qed.

Lemma load_from s l im : heap s !! l = Some im -> load l s = (Ok im, s).
Proof. intros Hl. unfold load. rewrite Hl. reflexivity. Qed.

(** CAR_META on [output = [ci; ti; ...]]: when both indices decode, the
    label "Color: c, Type: t" is drawn once into the caller's image at
    (50 s, 100 s) with font scale 2 s and thickness 3 s, where
    s = max(height / 1000, 1), and the pixels are left alone; when either
    index is out of range the branch raises [IndexError] before drawing
    anything. *)
Theorem car_meta_branch_effect (l : loc) (s : St) (im : Img) (ci ti : Z) (rest : list Z) :
  heap s !! l = Some im ->
  let sc := Z.max (height im / 1000) 1 in
  car_meta_branch l (OVec (ci :: ti :: rest)) s
  = match decode_car_meta ci ti with
    | Some (c, t) =>
        (Ok l, with_marks s l im
                 [Text ("Color: " +:+ c +:+ ", Type: " +:+ t) (50 * sc, 100 * sc)
                       (inject_Z (2 * sc)) (0, 255, 0) (3 * sc)])
    | None => (Raise IndexError, s)
    end.
Proof.
  intros Hl sc. unfold car_meta_branch, decode_car_meta, as_vec.
  rewrite bind_ret_l, at_0, bind_ret_l.
  destruct (py_get CAR_COLORS ci) as [c|]; simpl lift; [|reflexivity].
  rewrite bind_ret_l, at_1, bind_ret_l.
  destruct (py_get CAR_TYPES ti) as [t|]; simpl lift; [|reflexivity].
  rewrite bind_ret_l. unfold bind at 1. rewrite (load_from s l im Hl).
  unfold bind. rewrite (draw_from s l im _ Hl). reflexivity.
Qed.

Lemma car_meta_branch_effect_witness :
  car_meta_branch 0%nat (OVec [6; 3]) (MkSt [img22] [])
  = (Ok 0%nat, with_marks (MkSt [img22] []) 0%nat img22
       [Text "Color: black, Type: van" (50, 100) (inject_Z 2) (0, 255, 0) 3]).
Proof.
  exact (car_meta_branch_effect 0%nat (MkSt [img22] []) img22 6 3 [] eq_refl).
Defined.

(** GENDER on [output = [age; gi; ...]]: when the gender index decodes,
    the label "age,gender " is drawn once into the caller's image at
    (20, height - 10) with font scale 2 s and thickness 3 s, where
    s = max(height / 5000, 1); otherwise the branch raises [IndexError]
    before drawing anything. *)
Theorem gender_branch_effect (l : loc) (s : St) (im : Img) (age gi : Z) (rest : list Z) :
  heap s !! l = Some im ->
  let sc := Z.max (height im / 5000) 1 in
  gender_branch l (OVec (age :: gi :: rest)) s
  = match decode_gender age gi with
    | Some (a, g) =>
        (Ok l, with_marks s l im
                 [Text (pretty a +:+ "," +:+ g +:+ " ") (20, height im - 10)
                       (inject_Z (2 * sc)) (0, 255, 0) (3 * sc)])
    | None => (Raise IndexError, s)
    end.
Proof.
  intros Hl sc. unfold gender_branch, decode_gender, as_vec.
  rewrite bind_ret_l, at_0, bind_ret_l, at_1, bind_ret_l.
  destruct (py_get GENDER_TYPES gi) as [g|]; simpl lift; [|reflexivity].
  rewrite bind_ret_l. unfold bind at 1. rewrite (load_from s l im Hl).
  unfold bind. rewrite (draw_from s l im _ Hl). reflexivity.
Qed.

Lemma gender_branch_effect_witness :
  gender_branch 0%nat (OVec [25; 1]) (MkSt [img22] [])
  = (Ok 0%nat, with_marks (MkSt [img22] []) 0%nat img22
       [Text "25,male " (20, -8) (inject_Z 2) (0, 255, 0) 3]).
Proof.
  exact (gender_branch_effect 0%nat (MkSt [img22] []) img22 25 1 [] eq_refl).
Defined.

Lemma bcast_mismatch {A B C} (f : A -> B -> option C) xs ys :
  length xs <> length ys -> length xs <> 1%nat -> length ys <> 1%nat ->
  bcast f xs ys = None.
Proof.
  intros Hne H1 H2. unfold bcast.
  destruct (Nat.eqb_spec (length xs) (length ys)) as [E|_]; [contradiction|].
  destruct xs as [|x [|x' xs]], ys as [|y [|y' ys]]; simpl in *; try lia; reflexivity.
Qed.

(** TEXT fails without touching the heap or the output when the tensor
    has no channel 1 ([IndexError]), or when the map's height differs from
    the image's and neither is 1, so that NumPy cannot broadcast the mask
    onto the image ([ValueError]). *)
Theorem text_branch_failures (l : loc) (s : St) (im : Img) (t : list (list (list Q))) :
  heap s !! l = Some im ->
  ((length t <= 1)%nat -> text_branch l (OTensor t) s = (Raise IndexError, s)) /\
  (forall m, t !! 1%nat = Some m ->
     length m <> length (pixels im) -> length m <> 1%nat -> length (pixels im) <> 1%nat ->
     text_branch l (OTensor t) s = (Raise ValueError, s)).
Proof.
  intros Hl. unfold text_branch, as_tensor, text_map. rewrite bind_ret_l.
  rewrite py_get_nonneg by lia. change (Z.to_nat 1) with 1%nat. split.
  - intros Ht. rewrite (lookup_ge_None_2 t 1) by lia. reflexivity.
  - intros m Hm H1 H2 H3. rewrite Hm. simpl lift. rewrite bind_ret_l.
    unfold composite, bind at 1. rewrite (load_from s l im Hl).
    unfold add_pixels. rewrite bcast_mismatch; [reflexivity | | exact H3 |].
    + unfold get_mask, thr_map. rewrite !length_map. lia.
    + unfold get_mask, thr_map. rewrite !length_map. exact H2.
Qed.

Lemma text_branch_failures_witness :
  text_branch 0%nat (OTensor [[[1 # 1]]]) (MkSt [img22] [])
  = (Raise IndexError, MkSt [img22] []) /\
  text_branch 0%nat (OTensor [[[1 # 1]]; [[1 # 1]; [1 # 1]; [1 # 1]]]) (MkSt [img22] [])
  = (Raise ValueError, MkSt [img22] []).
Proof.
  destruct (text_branch_failures 0%nat (MkSt [img22] []) img22
              [[[1 # 1]]; [[1 # 1]; [1 # 1]; [1 # 1]]] eq_refl) as [_ H2].
  destruct (text_branch_failures 0%nat (MkSt [img22] []) img22
              [[[1 # 1]]] eq_refl) as [H1 _].
  split; [apply H1; simpl; lia | apply (H2 [[1 # 1]; [1 # 1]; [1 # 1]]); simpl; easy].
Defined.

(** The caller reports "Success" for an unknown model type: the
    dispatcher's warning is printed, no exception reaches the [except], and
    [perform_inference] goes on with the unmodified image. *)
Theorem render_step_unknown_reports_success fs tag l glass o s :
  ~ In tag known_tags ->
  render_step fs tag l glass o s
  = (Ok l, MkSt (heap s) (stdout s ++
       ["Unknown model type, unable to create output image."; "Success"]%string)).
Proof.
  intros Hn. unfold render_step.
  rewrite (create_output_image_unknown fs tag l glass o s (not_known_eqb tag Hn)).
  simpl. rewrite <- app_assoc. reflexivity.
Qed.

Lemma render_step_unknown_reports_success_witness :
  render_step (fun _ => None) "pose" 0%nat None (OVec []) (MkSt [img22] [])
  = (Ok 0%nat, MkSt [img22]
       ["Unknown model type, unable to create output image."; "Success"]%string).
Proof.
  apply (render_step_unknown_reports_success (fun _ => None) "pose" 0%nat None (OVec [])
           (MkSt [img22] [])).
  simpl. intuition discriminate.
Defined.

Lemma scale_sq_long (v : list Z) :
  (70 <= length v)%nat ->
  scale_sq v = Some ((nth 36 v 0 - nth 68 v 0) ^ 2 + (nth 37 v 0 - nth 69 v 0) ^ 2).
Proof.
  intros Hlen. unfold scale_sq.
  change 36 with (Z.of_nat 36); change 37 with (Z.of_nat 37);
  change 68 with (Z.of_nat 68); change 69 with (Z.of_nat 69).
  rewrite !py_get_nth by lia. reflexivity.
Qed.

Lemma scale_sq_short (v : list Z) : (length v < 70)%nat -> scale_sq v = None.
Proof.
  intros Hlen. unfold scale_sq.
  rewrite (py_get_out_of_range v 69) by lia.
  destruct (py_get v 36), (py_get v 68), (py_get v 37); reflexivity.
Qed.

(** Run the GLASS branch up to the allocation of [image_copy]. *)
Ltac glass_pre Hl :=
  unfold glass_branch, as_vec; rewrite bind_ret_l;
  unfold bind at 1; rewrite (load_from _ _ _ Hl); cbn beta iota;
  unfold bind at 1; cbn [alloc]; cbn beta iota.

(** The GLASS branch fails before writing any pixel, leaving the caller's
    image as it was (only the unused [image_copy] has been allocated), when
    the landmark list is shorter than 70 ([IndexError], from line 117, with
    or without an asset), when there is no asset to read, either because no
    path is given or because the file cannot be read ([cv2.imread] returns
    [None] and [glasses.shape] raises [AttributeError]), or when points 36
    and 68 coincide, so that the asset would be resized to width 0
    ([CvError]). *)
Theorem glass_branch_early_failures fs (l : loc) (s : St) (im : Img) (v : list Z)
    (glass : option string) :
  heap s !! l = Some im ->
  let s' := MkSt (heap s ++ [im]) (stdout s) in
  ((length v < 70)%nat -> glass_branch fs l glass (OVec v) s = (Raise IndexError, s')) /\
  ((70 <= length v)%nat -> imread fs glass = None ->
     glass_branch fs l glass (OVec v) s = (Raise AttributeError, s')) /\
  (forall g0, (70 <= length v)%nat -> imread fs glass = Some g0 -> asset_w g0 <> 0 ->
     nth 36 v 0 = nth 68 v 0 -> nth 37 v 0 = nth 69 v 0 ->
     glass_branch fs l glass (OVec v) s = (Raise CvError, s')).
Proof.
  intros Hl s'.
  split; [|split].
  - intros Hs. glass_pre Hl.
    rewrite scale_sq_short by exact Hs. reflexivity.
  - intros Hs Hf. glass_pre Hl. rewrite scale_sq_long by exact Hs.
    simpl lift. rewrite bind_ret_l, Hf. reflexivity.
  - intros g0 Hs Hf Hw H36 H37. glass_pre Hl.
    rewrite scale_sq_long by exact Hs.
    simpl lift. rewrite bind_ret_l, Hf. simpl lift.
    rewrite bind_ret_l, H36, H37, !Z.sub_diag.
    destruct (Z.eqb_spec (asset_w g0) 0) as [|_]; [contradiction|].
    rewrite bind_ret_l. reflexivity.
Qed.

Lemma glass_branch_early_failures_witness :
  glass_branch (fun _ => Some asset22) 0%nat None (OVec corner_landmarks) (MkSt [img22] [])
  = (Raise AttributeError, MkSt [img22; img22] []) /\
  glass_branch (fun _ => Some asset22) 0%nat None (OVec [1; 2; 3]) (MkSt [img22] [])
  = (Raise IndexError, MkSt [img22; img22] []) /\
  glass_branch (fun _ => Some asset22) 0%nat (Some "glasses.png"%string)
    (OVec (map (fun _ => 0) (seqZ 0 70))) (MkSt [img22] [])
  = (Raise CvError, MkSt [img22; img22] []).
Proof.
  destruct (glass_branch_early_failures (fun _ => Some asset22) 0%nat (MkSt [img22] []) img22
              corner_landmarks None eq_refl) as (_ & H2 & _).
  destruct (glass_branch_early_failures (fun _ => Some asset22) 0%nat (MkSt [img22] []) img22
              [1; 2; 3] None eq_refl) as (H1 & _ & _).
  destruct (glass_branch_early_failures (fun _ => Some asset22) 0%nat (MkSt [img22] []) img22
              (map (fun _ => 0) (seqZ 0 70)) (Some "glasses.png"%string) eq_refl)
    as (_ & _ & H3).
  split; [apply H2; [vm_compute; lia | reflexivity]|].
  split; [apply H1; simpl; lia|].
  apply (H3 asset22); [vm_compute; lia | reflexivity | discriminate | reflexivity | reflexivity].
Defined.

(** *** What the GLASS overlay writes, and what it leaves alone *)

Lemma length_py_set {A} (r r' : list A) (c : Z) (x : A) :
  py_set r c x = Some r' -> length r' = length r.
Proof.
  unfold py_set. destruct (py_norm _ c); [|discriminate].
  intros E. injection E as <-. apply length_insert.
Qed.

Lemma np_set2_shape (px px' : list (list px3)) r c v H W :
  np_set2 px r c v = Some px' -> shape2 H W px -> shape2 H W px'.
Proof.
  unfold np_set2. intros E [Hl Hr].
  destruct (py_norm _ r) as [k|]; [|discriminate].
  destruct (px !! k) as [row|] eqn:Ek; [|discriminate].
  destruct (py_set row c v) as [row'|] eqn:Es; [|discriminate].
  injection E as <-. split; [rewrite length_insert; exact Hl|].
  apply Forall_insert; [exact Hr|].
  rewrite (length_py_set _ _ _ _ Es). exact (Forall_lookup_1 _ _ _ _ Hr Ek).
Qed.

(** The frame of the overlay: the output, the heap size and every other
    object stay as they were, and the image at [l] keeps its drawing
    commands and its H x W shape. *)
Definition overlay_frame (s : St) (l : loc) (ms : list Mark) (H W : nat) (st : St) : Prop :=
  stdout st = stdout s /\ length (heap st) = length (heap s) /\
  (forall l', l' <> l -> heap st !! l' = heap s !! l') /\
  exists px, heap st !! l = Some (MkImg px ms) /\ shape2 H W px.

Lemma keeps_write_px s l ms H W r c v :
  keeps (overlay_frame s l ms H W) (write_px l r c v).
Proof.
  intros st (Ho & Hn & Hother & px & Hl & Hsh).
  unfold write_px, bind at 1. rewrite (load_from st l _ Hl). cbn beta iota.
  cbn [pixels marks].
  destruct (np_set2 px r c v) as [px'|] eqn:E; cbn [lift bind ret raise store marks snd];
    [| exact (conj Ho (conj Hn (conj Hother (ex_intro _ px (conj Hl Hsh)))))].
  unfold overlay_frame; cbn [heap stdout]. repeat split.
  - exact Ho.
  - rewrite length_insert. exact Hn.
  - intros l' Hne. rewrite list_lookup_insert_ne by congruence. apply Hother, Hne.
  - exists px'. split; [|exact (np_set2_shape _ _ _ _ _ H W E Hsh)].
    apply list_lookup_insert_eq. apply lookup_lt_is_Some_1. eexists; exact Hl.
Qed.

Lemma keeps_overlay_loop s l ms H W g tv th :
  keeps (overlay_frame s l ms H W) (overlay_loop l g tv th).
Proof.
  unfold overlay_loop. apply keeps_forM. intros i. apply keeps_forM. intros j.
  destruct (negb _); [apply keeps_write_px | apply keeps_ret].
Qed.

(** Lines 122-125 only ever assign pixels of [image]: whatever its outcome,
    the overlay prints nothing, allocates nothing, touches no other object,
    adds no drawing command, and leaves the image's height and width as
    they were (an ndarray element assignment cannot resize the array). *)
Theorem overlay_loop_frame (l : loc) (g : Asset) (tv th : Z) (s : St) (im : Img) (H W : nat) :
  heap s !! l = Some im -> shape2 H W (pixels im) ->
  let s' := snd (overlay_loop l g tv th s) in
  stdout s' = stdout s /\ length (heap s') = length (heap s) /\
  (forall l', l' <> l -> heap s' !! l' = heap s !! l') /\
  exists px, heap s' !! l = Some (MkImg px (marks im)) /\ shape2 H W px.
Proof.
  intros Hl Hsh s'. apply (keeps_overlay_loop s l (marks im) H W g tv th s).
  split; [reflexivity|]. split; [reflexivity|]. split; [reflexivity|].
  exists (pixels im). split; [|exact Hsh].
  rewrite Hl. destruct im; reflexivity.
Qed.

Lemma overlay_loop_frame_witness :
  snd (overlay_loop 0%nat asset22 1 0 (MkSt [img22; img22] []))
  = MkSt [MkImg [[Px3 1 2 3; Px3 4 5 6]; [Px3 9 9 9; Px3 0 0 0]] []; img22] [] /\
  stdout (snd (overlay_loop 0%nat asset22 1 0 (MkSt [img22; img22] []))) = [] /\
  heap (snd (overlay_loop 0%nat asset22 1 0 (MkSt [img22; img22] []))) !! 1%nat = Some img22.
Proof.
  assert (Hs : shape2 2 2 (pixels img22)) by (repeat constructor).
  destruct (overlay_loop_frame 0%nat asset22 1 0 (MkSt [img22; img22] []) img22 2 2
              eq_refl Hs) as (Ho & _ & Hother & _).
  split; [vm_compute; reflexivity|]. split; [exact Ho|]. exact (Hother 1%nat ltac:(lia)).
Defined.

(** An asset pixel with alpha 0. *)
Definition transparent (g : Asset) : Prop := Forall (Forall (fun p => a3 p = 0)) g.

Lemma asset_px_transparent g i j : transparent g -> a3 (asset_px g i j) = 0.
Proof.
  intros Hg. unfold asset_px.
  destruct (g !! i) as [r|] eqn:Er; simpl; [|reflexivity].
  destruct (r !! j) as [p|] eqn:Ep; simpl; [|reflexivity].
  exact (Forall_lookup_1 _ _ _ _ (Forall_lookup_1 _ _ _ _ Hg Er) Ep).
Qed.

Lemma forM_ext {A} (xs : list A) (f f' : A -> M unit) :
  (forall x, f x = f' x) -> forM_ xs f = forM_ xs f'.
Proof. intros E. induction xs as [|x xs IH]; simpl; [reflexivity|]. rewrite E, IH. reflexivity. Qed.

Lemma forM_ret {A} (xs : list A) : forM_ xs (fun _ => ret tt) = ret tt.
Proof. induction xs as [|x xs IH]; simpl; [reflexivity|]. rewrite bind_ret_l. exact IH. Qed.

Lemma overlay_loop_skip (l : loc) (g : Asset) (tv th : Z) (s : St) :
  transparent g -> overlay_loop l g tv th s = (Ok tt, s).
Proof.
  intros Hg. unfold overlay_loop.
  erewrite (forM_ext (seq 0 (length g))); [rewrite forM_ret; reflexivity|].
  intros i. erewrite forM_ext; [apply forM_ret|].
  intros j. rewrite (asset_px_transparent g i j Hg). reflexivity.
Qed.

(** An asset whose alpha channel is 0 everywhere is skipped pixel by pixel:
    the overlay writes nothing and raises nothing, wherever the placement
    (tv, th) falls, in range of the image or not. *)
Theorem overlay_loop_transparent (l : loc) (g : Asset) (tv th : Z) (s : St) :
  transparent g -> overlay_loop l g tv th s = (Ok tt, s).
Proof. apply overlay_loop_skip. Qed.

Lemma overlay_loop_transparent_witness :
  overlay_loop 0%nat [[Px4 9 9 9 0; Px4 8 8 8 0]] 5 (-7) (MkSt [img22] [])
  = (Ok tt, MkSt [img22] []).
Proof. apply overlay_loop_transparent. repeat constructor. Defined.

Lemma transparent_resize g w h : transparent g ->
  returns transparent (cv2_resize g w h).
Proof.
  intros Hg. unfold cv2_resize. destruct (_ || _).
  - intros s r s' E. discriminate.
  - apply returns_ret. apply Forall_map, List.Forall_forall. intros i _.
    apply Forall_map, List.Forall_forall. intros j _. apply asset_px_transparent, Hg.
Qed.

Lemma keeps_cv2_resize Q g w h : keeps Q (cv2_resize g w h).
Proof. unfold cv2_resize. destruct (_ || _); [apply keeps_raise | apply keeps_ret]. Qed.

Lemma keeps_as_vec {A} Q o (k : _ -> M A) :
  (forall v, keeps Q (k v)) -> keeps Q (bind (as_vec o) k).
Proof.
  intros Hk. apply keeps_bind; [|exact Hk].
  destruct o; [apply keeps_raise | apply keeps_ret].
Qed.

(** A bind whose first step returns only values satisfying [P]. *)
Lemma keeps_bind_returns {A B} Q (P : A -> Prop) (m : M A) (k : A -> M B) :
  keeps Q m -> returns P m -> (forall a, P a -> keeps Q (k a)) -> keeps Q (bind m k).
Proof.
  intros Hm HP Hk s Hs. unfold bind.
  specialize (Hm s Hs). destruct (m s) as [[a|e] s'] eqn:E; simpl in *; [|exact Hm].
  exact (Hk a (HP s a s' E) s' Hm).
Qed.

(** One step of a [keeps] proof over a sequence of statements. *)
Ltac keeps_step :=
  match goal with
  | |- keeps _ (bind (as_vec _) _) => apply keeps_as_vec; intros ?
  | |- keeps _ (bind _ _) => apply keeps_bind; [|intros ?]
  | |- keeps _ (lift _ _) => apply keeps_lift
  | |- keeps _ (at_ _ _) => apply keeps_lift
  | |- keeps _ (ret _) => apply keeps_ret
  | |- keeps _ (raise _) => apply keeps_raise
  | |- keeps _ (load _) => apply keeps_load
  | |- keeps _ (cv2_resize _ _ _) => apply keeps_cv2_resize
  | |- keeps _ (if ?b then _ else _) => destruct b
  | |- keeps _ (let _ := _ in _) => cbv zeta
  end.

(** With an asset file whose alpha channel is 0 everywhere, the GLASS
    branch leaves the caller's image as it was, whatever the landmarks and
    whether or not it raises: every pixel of the resized asset is
    transparent as well, so the overlay skips them all. *)
Theorem glass_transparent_asset fs (l : loc) (glass : option string) (o : Out) (s : St) (im : Img) :
  heap s !! l = Some im ->
  (forall p g, fs p = Some g -> transparent g) ->
  heap (snd (glass_branch fs l glass o s)) !! l = Some im.
Proof.
  intros Hl Hfs. revert s Hl. change (keeps (fun st => heap st !! l = Some im)
                                           (glass_branch fs l glass o)).
  unfold glass_branch.
  apply keeps_as_vec; intros v.
  apply keeps_bind; [apply keeps_load | intros im'].
  apply keeps_bind; [apply keeps_alloc | intros _].
  cbv zeta.
  apply keeps_bind; [apply keeps_lift | intros n].
  apply (keeps_bind_returns _ transparent); [apply keeps_lift | | intros g0 Hg0].
  { destruct (imread fs glass) as [g|] eqn:Ef; simpl lift.
    - apply returns_ret. destruct glass as [path|]; [exact (Hfs path g Ef) | discriminate].
    - intros s r s' E. discriminate. }
  apply keeps_bind; [destruct (_ =? _); [apply keeps_raise | apply keeps_ret] | intros _].
  apply (keeps_bind_returns _ transparent);
    [apply keeps_cv2_resize | apply transparent_resize, Hg0 | intros g Hg].
  repeat keeps_step.
  intros st Hst. rewrite (overlay_loop_skip _ _ _ _ _ Hg). exact Hst.
Qed.

Lemma glass_transparent_asset_witness :
  heap (snd (glass_branch (fun _ => Some [[Px4 9 9 9 0; Px4 8 8 8 0]]) 0%nat
               (Some "glasses.png"%string) (OVec corner_landmarks) (MkSt [img22] [])))
    !! 0%nat = Some img22.
Proof.
  apply glass_transparent_asset; [reflexivity|].
  intros p g E. injection E as <-. repeat constructor.
Defined.

(** The state outside the image object [l]: what was printed, how many
    objects exist and what every other object holds. *)
Definition outside (o : list string) (n : nat) (l : loc) (f : loc -> option Img) (st : St) : Prop :=
  stdout st = o /\ length (heap st) = n /\ forall l', l' <> l -> heap st !! l' = f l'.

Lemma keeps_write_px_outside o n l f r c v : keeps (outside o n l f) (write_px l r c v).
Proof.
  intros st (Ho & Hn & Hother). unfold write_px, bind at 1, load.
  destruct (heap st !! l) as [im|] eqn:El; cbn beta iota; [|exact (conj Ho (conj Hn Hother))].
  destruct (np_set2 (pixels im) r c v) as [px'|]; cbn [lift bind ret raise store snd];
    [|exact (conj Ho (conj Hn Hother))].
  unfold outside; cbn [heap stdout]. split; [exact Ho|]. split.
  - rewrite length_insert. exact Hn.
  - intros l' Hne. rewrite list_lookup_insert_ne by congruence. apply Hother, Hne.
Qed.

(** GLASS prints nothing and allocates exactly one object, [image_copy],
    a snapshot of the caller's image that nothing writes to afterwards; the
    only object it can change is the caller's image itself. This holds
    whatever the outcome, including a failure part-way through the overlay. *)
Theorem glass_branch_frame fs (l : loc) (glass : option string) (v : list Z) (s : St) (im : Img) :
  heap s !! l = Some im ->
  let s' := snd (glass_branch fs l glass (OVec v) s) in
  stdout s' = stdout s /\ length (heap s') = S (length (heap s)) /\
  heap s' !! length (heap s) = Some im /\
  (forall l', l' <> l -> (l' < length (heap s))%nat -> heap s' !! l' = heap s !! l').
Proof.
  intros Hl s'.
  assert (Hlt : (l < length (heap s))%nat) by (apply lookup_lt_is_Some_1; eexists; exact Hl).
  assert (K : outside (stdout s) (S (length (heap s))) l (fun l' => (heap s ++ [im]) !! l') s').
  { subst s'. glass_pre Hl.
    match goal with |- outside ?o ?n ?l ?f (snd (?m ?st)) =>
      assert (HK : keeps (outside o n l f) m); [|apply HK] end.
    - repeat keeps_step. unfold overlay_loop.
      apply keeps_forM; intros i. apply keeps_forM; intros j. cbv zeta.
      lazymatch goal with |- keeps _ (if ?b then _ else _) => destruct b end;
        [apply keeps_write_px_outside | apply keeps_ret].
    - unfold outside; cbn [heap stdout]. split; [reflexivity|]. split.
      + rewrite length_app. simpl. lia.
      + intros l' _. reflexivity. }
  destruct K as (Ho & Hn & Hother). split; [exact Ho|]. split; [exact Hn|]. split.
  - etransitivity; [apply Hother; lia|]. apply list_lookup_middle. reflexivity.
  - intros l' Hne Hl'. etransitivity; [apply Hother, Hne|]. apply lookup_app_l, Hl'.
Qed.

Lemma glass_branch_frame_witness :
  let s' := snd (glass_branch (fun _ => Some asset22) 0%nat (Some "glasses.png"%string)
                   (OVec corner_landmarks) (MkSt [img22] [])) in
  stdout s' = [] /\ length (heap s') = 2%nat /\ heap s' !! 1%nat = Some img22.
Proof.
  destruct (glass_branch_frame (fun _ => Some asset22) 0%nat (Some "glasses.png"%string)
              corner_landmarks (MkSt [img22] []) img22 eq_refl) as (Ho & Hn & Hc & _).
  split; [exact Ho|]. split; [exact Hn | exact Hc].
Defined.

(** *** The POSE map *)

Lemma at2_add2_inv (a b : list (list Z)) i j v :
  at2 (add2 a b) i j = Some v ->
  exists x y, at2 a i j = Some x /\ at2 b i j = Some y /\ v = x + y.
Proof.
  unfold at2, add2. rewrite lookup_zip_with.
  destruct (a !! i) as [ra|], (b !! i) as [rb|]; simpl; try discriminate.
  rewrite lookup_zip_with.
  destruct (ra !! j) as [x|], (rb !! j) as [y|]; simpl; try discriminate.
  intros E. injection E as <-. eauto.
Qed.

Lemma fold_add2_inv (cs : list (list (list Z))) (acc : list (list Z)) i j v :
  at2 (fold_left add2 cs acc) i j = Some v ->
  exists a, at2 acc i j = Some a /\ v = a + zsum (map (fun c => default 0 (at2 c i j)) cs).
Proof.
  revert acc v. induction cs as [|c cs IH]; intros acc v Hv; simpl in *.
  - exists v. split; [exact Hv | lia].
  - destruct (IH _ _ Hv) as (a' & Ha' & ->).
    apply at2_add2_inv in Ha' as (x & y & Hx & Hy & ->).
    exists x. split; [exact Hx|]. rewrite Hy. simpl. lia.
Qed.

Lemma thr_elem (m : list (list Q)) i j : default 0 (at2 (thr_map m) i j) = thr (elem m i j).
Proof.
  unfold thr_map, elem. rewrite at2_map. destruct (at2 m i j); reflexivity.
Qed.

Lemma zsum_thr_count (f : list (list Q) -> Q) (ms : list (list (list Q))) :
  zsum (map (fun m => thr (f m)) ms)
  = 255 * Z.of_nat (length (List.filter (fun m => gt_half (f m)) ms)).
Proof.
  induction ms as [|m ms IH]; simpl; [reflexivity|].
  rewrite IH. unfold thr. destruct (gt_half (f m)); simpl; lia.
Qed.

(** After line 71 every entry of the POSE map is 255 times the number of
    channels, among all but the last, whose value at that point is above
    0.5: a multiple of 255, 510 or more wherever two heat-map channels fire
    at the same point. *)
Theorem pose_map_counts (t : list (list (list Q))) (i j : nat) (v : Z) :
  at2 (pose_map t) i j = Some v ->
  v = 255 * Z.of_nat (length (List.filter (fun m => gt_half (elem m i j)) (removelast t))).
Proof.
  unfold pose_map. destruct (removelast t) as [|m0 ms]; simpl.
  - rewrite at2_map. destruct (at2 _ i j); simpl; [|discriminate].
    intros E. injection E as <-. reflexivity.
  - intros Hv. destruct (fold_add2_inv _ _ i j v Hv) as (a & Ha & ->).
    assert (Ea : a = thr (elem m0 i j)) by (rewrite <- thr_elem, Ha; reflexivity).
    subst a. rewrite map_map.
    erewrite map_ext; [|intros m; apply thr_elem].
    rewrite zsum_thr_count.
    unfold thr. destruct (gt_half (elem m0 i j)); simpl; lia.
Qed.

Lemma pose_map_counts_witness :
  at2 (pose_map [[[1 # 1]]; [[1 # 1]]; [[0 # 1]]]) 0 0 = Some 510 /\
  510 = 255 * Z.of_nat (length (List.filter (fun m => gt_half (elem m 0 0))
                                      (removelast [[[1 # 1]]; [[1 # 1]]; [[0 # 1]]]))).
Proof.
  split; [reflexivity|].
  apply (pose_map_counts [[[1 # 1]]; [[1 # 1]]; [[0 # 1]]] 0 0 510). reflexivity.
Defined.

Lemma add_px_zero q : add_px q (Px3 0 0 0) = q.
Proof. destruct q; unfold add_px; simpl; f_equal; lia. Qed.

Lemma zip_add_zero_row (r : list px3) {A} (s : list A) :
  length r = length s -> zip_with add_px r (map (fun _ => Px3 0 0 0) s) = r.
Proof.
  revert s. induction r as [|q r IH]; intros [|x s] Hl; simpl in *; try discriminate; [reflexivity|].
  rewrite add_px_zero, IH by lia. reflexivity.
Qed.

Lemma zip_add_zero {A} (px : list (list px3)) (m : list (list A)) H W :
  shape2 H W px -> shape2 H W m ->
  zip_with (zip_with add_px) px (map (map (fun _ => Px3 0 0 0)) m) = px.
Proof.
  intros Hp Hm.
  pose proof (shape2_rows (fun r s => length r = length s) H W px m Hp Hm
                ltac:(intros; congruence)) as HF. clear Hp Hm.
  induction HF as [|r s px m Hrs HF IH]; simpl; [reflexivity|].
  rewrite zip_add_zero_row by exact Hrs. f_equal. exact IH.
Qed.

(** A 2-D array of zeros. *)
Definition allzero (p : list (list Z)) : Prop := Forall (Forall (fun x => x = 0)) p.

Lemma Forall_zip_with {A B C} (P : A -> Prop) (Q : B -> Prop) (R : C -> Prop)
      (f : A -> B -> C) a b :
  Forall P a -> Forall Q b -> (forall x y, P x -> Q y -> R (f x y)) ->
  Forall R (zip_with f a b).
Proof.
  intros Ha. revert b. induction Ha as [|x a Hx Ha IH]; intros [|y b] Hb Hf; simpl;
    try constructor.
  - inversion Hb; subst. apply Hf; assumption.
  - inversion Hb; subst. apply IH; assumption.
Qed.

Lemma allzero_add2 a b : allzero a -> allzero b -> allzero (add2 a b).
Proof.
  intros Ha Hb. unfold add2. apply (Forall_zip_with _ _ _ _ _ _ Ha Hb).
  intros r s Hr Hs. apply (Forall_zip_with _ _ _ _ _ _ Hr Hs). intros x y -> ->. reflexivity.
Qed.

Lemma allzero_thr m : Forall (Forall (fun x => (x <= 1 # 2)%Q)) m -> allzero (thr_map m).
Proof.
  intros Hm. unfold thr_map. apply Forall_map. eapply Forall_impl; [exact Hm|].
  intros r Hr. apply Forall_map. eapply Forall_impl; [exact Hr|].
  intros x Hx. apply (proj2 (thr_spec x) Hx).
Qed.

Lemma allzero_zeros {A} (m : list (list A)) : allzero (map (map (fun _ => 0)) m).
Proof.
  apply Forall_map, List.Forall_forall. intros r _.
  apply Forall_map, List.Forall_forall. reflexivity.
Qed.

Lemma fold_add2_zero H W cs acc :
  shape2 H W acc -> allzero acc -> Forall (shape2 H W) cs -> Forall allzero cs ->
  shape2 H W (fold_left add2 cs acc) /\ allzero (fold_left add2 cs acc).
Proof.
  revert acc. induction cs as [|c cs IH]; intros acc Hs Hz Hcs Hzs; simpl; [auto|].
  inversion Hcs; inversion Hzs; subst. apply IH; auto.
  - apply shape2_zip_with; assumption.
  - apply allzero_add2; assumption.
Qed.

Lemma get_mask_zero p : allzero p -> get_mask p = map (map (fun _ => Px3 0 0 0)) p.
Proof.
  unfold get_mask. induction 1 as [|r p Hr Hp IH]; simpl; [reflexivity|].
  rewrite IH. f_equal. induction Hr as [|x r -> Hr IHr]; simpl; [reflexivity|].
  rewrite IHr. reflexivity.
Qed.

(** When no heat-map channel (all but the last) is above 0.5 anywhere,
    which includes an output holding only the last channel, the POSE branch
    returns a new image object holding exactly the caller's pixels and
    drawing commands. *)
Theorem pose_no_detection (l : loc) (s : St) (im : Img) (t : list (list (list Q))) (H W : nat) :
  heap s !! l = Some im -> shape2 H W (pixels im) ->
  t <> [] -> Forall (shape2 H W) t ->
  Forall (Forall (Forall (fun x => (x <= 1 # 2)%Q))) (removelast t) ->
  pose_branch l (OTensor t) s = (Ok (length (heap s)), MkSt (heap s ++ [im]) (stdout s)).
Proof.
  intros Hl Hpx Hne Hsh Hlow.
  pose proof (app_removelast_last [] Hne) as Ht.
  assert (Hall : Forall (shape2 H W) (removelast t ++ [List.last t []]))
    by (rewrite <- Ht; exact Hsh).
  apply Forall_app in Hall as [Hrl Hlast]. apply Forall_cons_1 in Hlast as [Hlast _].
  assert (Hp : shape2 H W (pose_map t) /\ allzero (pose_map t)).
  { unfold pose_map.
    assert (Hs' : Forall (shape2 H W) (map thr_map (removelast t))).
    { apply Forall_map. eapply Forall_impl; [exact Hrl|]. intros m Hm. apply shape2_map, Hm. }
    assert (Hz' : Forall allzero (map thr_map (removelast t))).
    { apply Forall_map. eapply Forall_impl; [exact Hlow|]. intros m Hm. apply allzero_thr, Hm. }
    destruct (map thr_map (removelast t)) as [|c cs].
    - split; [apply shape2_map, Hlast | apply allzero_zeros].
    - inversion Hs'; inversion Hz'; subst. apply fold_add2_zero; assumption. }
  destruct Hp as [Hps Hpz].
  unfold pose_branch, as_tensor. rewrite bind_ret_l.
  unfold composite, bind at 1. rewrite (load_from s l im Hl). cbn beta iota.
  rewrite get_mask_zero by exact Hpz.
  rewrite (add_pixels_same_shape _ _ H W Hpx) by (apply shape2_map, Hps).
  rewrite (zip_add_zero _ _ H W Hpx Hps). destruct im. reflexivity.
Qed.

Lemma pose_no_detection_witness :
  pose_branch 0%nat (OTensor [[[1 # 4; 1 # 2]; [0 # 1; 1 # 3]]; [[1 # 1; 1 # 1]; [1 # 1; 1 # 1]]]) (MkSt [img22] [])
  = (Ok 1%nat, MkSt [img22; img22] []).
Proof.
  apply (pose_no_detection 0%nat (MkSt [img22] []) img22 _ 2 2); [reflexivity | | discriminate | |].
  - repeat constructor.
  - repeat constructor.
  - simpl. repeat constructor; vm_compute; discriminate.
Defined.
